(** * Unfolded Circle Remote integration: setup, migration, dock
      reconciliation and entity adapters

    A shallow embedding of [custom_components/unfoldedcircle/__init__.py],
    [number.py] and [update.py].  Python dictionaries are finite maps,
    strings are [string], exceptions are values carrying the names of
    their classes, and every call that leaves the integration (device
    client, host framework) is answered by an oracle that may raise. *)

From Stdlib Require Import QArith Ascii String.
From stdpp Require Import gmap strings list fin_maps.
From Stdlib Require Import DecimalString.

Local Open Scope string_scope.
Local Open Scope Z_scope.
Local Open Scope list_scope.

(** ** Python strings *)

Module PyStr.

(** [str.lower] on the ASCII letters; bytes outside [A-Z] are kept.  No
  character outside [A-Z] lower-cases to one of [u], [c], [r], [d], so
  the marker tests below see what Python sees. *)
Definition lower_ascii (c : ascii) : ascii :=
let n := N_of_ascii c in
if ((65 <=? n) && (n <=? 90))%N then ascii_of_N (n + 32) else c.

Fixpoint lower (s : string) : string :=
match s with
| EmptyString => EmptyString
| String c s' => String (lower_ascii c) (lower s')
end.

(** [s.startswith(p)] *)
Fixpoint startswith (p s : string) : bool :=
match p, s with
| EmptyString, _ => true
| String _ _, EmptyString => false
| String a p', String b s' => Ascii.eqb a b && startswith p' s'
end.

(** [p in s] *)
Fixpoint contains (p s : string) : bool :=
startswith p s ||
match s with
| EmptyString => false
| String _ s' => contains p s'
end.

(** [new.join(s)] with a trailing [new]: every character followed by
  [new]; what [replace] does between characters for an empty pattern. *)
Fixpoint follow_each (new s : string) : string :=
match s with
| EmptyString => EmptyString
| String c s' => String c (new +:+ follow_each new s')
end.

(** The scan of [s.replace(old, new)] for a non-empty [old]: left to
  right, non-overlapping; [skip] counts the characters of a match
  already replaced. *)
Fixpoint replace_from (old new : string) (skip : nat) (s : string) : string :=
match s with
| EmptyString => EmptyString
| String c s' =>
    match skip with
    | S k => replace_from old new k s'
    | O =>
        if startswith old s
        then new +:+ replace_from old new (Nat.pred (String.length old)) s'
        else String c (replace_from old new 0 s')
    end
end.

(** [s.replace(old, new)] *)
Definition replace (old new s : string) : string :=
match old with
| EmptyString => new +:+ follow_each new s
| String _ _ => replace_from old new 0 s
end.

(** [str(n)] for an [int]. *)
Definition str_of_int (n : Z) : string :=
NilZero.string_of_int (Z.to_int n).

End PyStr.

(** ** Constants of [const.py]

    [const.py] is not among the sources; its four constants are taken
    as parameters of the model. *)
Record Const := {
  DOMAIN : string;
  UNFOLDED_CIRCLE_COORDINATOR : string;
  UC_HA_SYSTEM : string;
  UC_HA_TOKEN_ID : string
}.

(** [homeassistant.const.Platform] members are strings. *)
Module Platform.
Definition SWITCH := "switch".
Definition SENSOR := "sensor".
Definition BINARY_SENSOR := "binary_sensor".
Definition UPDATE := "update".
Definition BUTTON := "button".
Definition REMOTE := "remote".
Definition NUMBER := "number".
Definition SELECT := "select".
Definition MEDIA_PLAYER := "media_player".
End Platform.

Definition PLATFORMS : list string :=
  [Platform.SWITCH; Platform.SENSOR; Platform.BINARY_SENSOR; Platform.UPDATE;
   Platform.BUTTON; Platform.REMOTE; Platform.NUMBER; Platform.SELECT;
   Platform.MEDIA_PLAYER].

(** ** Entity registry entries and the unique-id migration *)

Record RegistryEntry := {
  entity_id : string;
  config_entry_id : string;
  domain : string;
  unique_id : string
}.

(** The dictionary [{"new_unique_id": ...}] returned by the callback. *)
Record RegistryUpdates := { new_unique_id : string }.

(** [async_migrate_entity_entry], the closure defined inside
    [async_setup_entry]; [model_number] and [serial_number] are
    [coordinator.api.model_number] and [coordinator.api.serial_number]. *)
Definition async_migrate_entity_entry
    (model_number serial_number : string) (entry : RegistryEntry)
    : option RegistryUpdates :=
  if negb (String.eqb (domain entry) Platform.UPDATE)
     && negb (String.eqb (domain entry) Platform.SWITCH)
     && negb (PyStr.contains "ucr" (PyStr.lower (unique_id entry)))
     && negb (PyStr.contains "ucd" (PyStr.lower (unique_id entry)))
  then
    let new := model_number +:+ "_" +:+ unique_id entry in
    Some {| new_unique_id := PyStr.replace (unique_id entry) new (unique_id entry) |}
  else if String.eqb (domain entry) Platform.SWITCH
     && negb (PyStr.contains "ucr" (PyStr.lower (unique_id entry)))
     && negb (PyStr.contains "ucd" (PyStr.lower (unique_id entry)))
     && negb (PyStr.contains "uc.main" (unique_id entry))
  then
    let new := model_number +:+ "_" +:+ unique_id entry in
    Some {| new_unique_id := PyStr.replace (unique_id entry) new (unique_id entry) |}
  else if String.eqb (domain entry) Platform.UPDATE
     && negb (PyStr.contains "ucr" (PyStr.lower (unique_id entry)))
     && negb (PyStr.contains "ucd" (PyStr.lower (unique_id entry)))
  then
    let new := model_number +:+ "_" +:+ serial_number +:+ "_update_status" in
    Some {| new_unique_id := PyStr.replace (unique_id entry) new (unique_id entry) |}
  else None.

(** What the host's [async_update_entity(entity_id, **updates)] does
    with the callback's answer: [None] leaves the entry alone. *)
Definition apply_updates (entry : RegistryEntry) (u : option RegistryUpdates)
    : RegistryEntry :=
  match u with
  | Some upd =>
      {| entity_id := entity_id entry; config_entry_id := config_entry_id entry;
         domain := domain entry; unique_id := new_unique_id upd |}
  | None => entry
  end.

(** The marker test of the migration: [s.lower()] contains ["ucr"] or
    ["ucd"]. *)
Definition has_marker (s : string) : bool :=
  PyStr.contains "ucr" (PyStr.lower s) || PyStr.contains "ucd" (PyStr.lower s).

(** One migration pass over one registry entry. *)
Definition migrate_entry (model_number serial_number : string)
    (entry : RegistryEntry) : RegistryEntry :=
  apply_updates entry (async_migrate_entity_entry model_number serial_number entry).

(** ** Exceptions

    An exception carries the names of the classes of its type, most
    specific first (its method resolution order), its message and the
    exception it was raised [from]. *)
#[warnings="-register-all"]
Inductive exn := Exn (mro : list string) (msg : string) (cause : option exn).

Definition exn_mro (e : exn) : list string := let 'Exn mro _ _ := e in mro.
Definition exn_msg (e : exn) : string := let 'Exn _ msg _ := e in msg.
Definition exn_cause (e : exn) : option exn := let 'Exn _ _ c := e in c.

(** [isinstance(e, cls)]: what an [except cls] clause tests. *)
Definition isinstance (e : exn) (cls : string) : bool :=
  bool_decide (cls ∈ exn_mro e).

Definition Exception_mro (cls : list string) : list string :=
  cls ++ ["Exception"; "BaseException"].

Definition KeyError (key : string) : exn :=
  Exn (Exception_mro ["KeyError"; "LookupError"]) key None.
Definition IndexError (m : string) : exn :=
  Exn (Exception_mro ["IndexError"; "LookupError"]) m None.
Definition AttributeError (m : string) : exn :=
  Exn (Exception_mro ["AttributeError"]) m None.
Definition ValueError (m : string) : exn :=
  Exn (Exception_mro ["ValueError"]) m None.
Definition StopIteration : exn :=
  Exn (Exception_mro ["StopIteration"]) "" None.
Definition RuntimeError (m : string) (from : exn) : exn :=
  Exn (Exception_mro ["RuntimeError"]) m (Some from).

(** [ConfigEntryAuthFailed(err)], raised [from err]. *)
Definition ConfigEntryAuthFailed (err : exn) : exn :=
  Exn (Exception_mro ["ConfigEntryAuthFailed"; "ConfigEntryError";
                      "IntegrationError"; "HomeAssistantError"])
      (exn_msg err) (Some err).

(** [ConfigEntryNotReady(err)], raised [from err]. *)
Definition ConfigEntryNotReady (err : exn) : exn :=
  Exn (Exception_mro ["ConfigEntryNotReady"; "IntegrationError";
                      "HomeAssistantError"])
      (exn_msg err) (Some err).

Inductive Outcome (A : Type) :=
| Returned (a : A)
| Raised (e : exn).
Arguments Returned {A} a.
Arguments Raised {A} e.

(** ** Calls that leave the integration

    One constructor per call into the device client or the host
    framework; the constructor keeps the arguments the code passes. *)
Inductive Call :=
| Remote_new (host pin apiKey : string)
| validate_connection
| get_remote_information
| RemoteCoordinator_new
| api_init
| er_async_migrate_entries (entry_id : string)
| dr_async_update_device (device_id : string)
| async_update_entry
| DockCoordinator_new (dock_id : string)
| dock_api_update (dock_id : string)
| dock_first_refresh (dock_id : string)
| async_create_issue (issue_domain issue_id : string)
| async_delete_issue (issue_domain issue_id : string)
| async_config_entry_first_refresh
| get_registered_websocket_url
| async_forward_entry_setups (platforms : list string)
| add_update_listener
| zeroconf_async_get_async_instance
| init_websocket
| close_websocket
| async_unload_platforms (platforms : list string)
| delete_token_for_external_system (system token_id : string)
| api_patch (method keyword : string) (value : Z)
| dock_send_command (dock_id command command_value : string)
| async_request_refresh (dock_id : option string)
| async_write_ha_state
| update_remote
| get_remote_update_information.

Global Instance Call_eq_dec : EqDecision Call.
Proof. solve_decision. Defined.

Record LogRecord := {
  log_level : string;
  log_format : string;
  log_args : list string
}.

(** ** Device client objects *)

Module Dock.
(** A dock handle of the client library; [_password] is the attribute
    the setup routine assigns. *)
Record t := {
  id : string;
  name : string;
  endpoint : string;
  _password : option string;
  model_number : string;
  serial_number : string
}.

(** Modelled from the spec: the [has_password] property lives in the
    client library; the spec calls it "a non-empty password". *)
Definition has_password (d : t) : bool :=
  match _password d with
  | Some p => negb (String.eqb p "")
  | None => false
  end.

Definition set_password (p : option string) (d : t) : t :=
  {| id := id d; name := name d; endpoint := endpoint d; _password := p;
     model_number := model_number d; serial_number := serial_number d |}.
End Dock.

Module Remote.
(** The attributes of the [Remote] client that the integration reads. *)
Record t := {
  name : string;
  model_number : string;
  serial_number : string;
  docks : list Dock.t;
  external_entity_configuration_available : bool;
  sw_version : string;
  latest_sw_version : string;
  release_notes : string;
  automatic_updates : bool;
  update_in_progress : bool;
  update_percent : Z
}.

Definition set_docks (ds : list Dock.t) (r : t) : t :=
  {| name := name r; model_number := model_number r;
     serial_number := serial_number r; docks := ds;
     external_entity_configuration_available :=
       external_entity_configuration_available r;
     sw_version := sw_version r; latest_sw_version := latest_sw_version r;
     release_notes := release_notes r;
     automatic_updates := automatic_updates r;
     update_in_progress := update_in_progress r;
     update_percent := update_percent r |}.
End Remote.

(** A coordinator holds its client as [api] and the last polled [data]. *)
Module UnfoldedCircleRemoteCoordinator.
Record t := { api : Remote.t; data : gmap string Z }.
End UnfoldedCircleRemoteCoordinator.

Module UnfoldedCircleDockCoordinator.
Record t := { api : Dock.t; data : gmap string Z }.
End UnfoldedCircleDockCoordinator.

(** ** Host state *)

Record RuntimeData := {
  coordinator : UnfoldedCircleRemoteCoordinator.t;
  remote : Remote.t;
  dock_coordinators : list UnfoldedCircleDockCoordinator.t
}.

(** [entry.data]: a missing key is [None]. *)
Record EntryData := {
  data_host : option string;
  data_pin : option string;
  data_apiKey : option string;
  data_docks : option (list (gmap string string))
}.

Record ConfigEntry := {
  entry_id : string;
  title : string;
  version : Z;
  data : EntryData;
  runtime_data : option RuntimeData
}.

Record DeviceEntry := {
  device_id : string;
  device_config_entries : list string;
  identifiers : list (list string)
}.

Record Issue := {
  is_fixable : bool;
  is_persistent : bool;
  translation_key : string;
  translation_placeholders : gmap string string
}.

(** The host ([hass]) together with the config entry under work. *)
Record Hass := {
  entity_registry : list RegistryEntry;
  device_registry : list DeviceEntry;
  issues : gmap (string * string) Issue;
  hass_data : gmap string (gmap string (gmap string UnfoldedCircleRemoteCoordinator.t));
  entry : ConfigEntry
}.

(** ** The environment: what the device and the host answer *)
Record Env := {
  const : Const;
  (** does this call raise, given the calls made so far? *)
  raises : list Call → Call → option exn;
  (** the client's attributes once the device information is fetched *)
  device : Remote.t;
  (** what a fresh coordinator holds in [data] *)
  remote_coordinator_data : gmap string Z;
  dock_coordinator_data : string → gmap string Z;
  (** the registered websocket URL, if any *)
  registered_websocket_url : option string;
  unload_ok : bool
}.

(** ** A state-and-exception monad *)

Record World (S : Type) := {
  calls : list Call;
  logs : list LogRecord;
  state : S
}.
Arguments calls {S} _.
Arguments logs {S} _.
Arguments state {S} _.

Definition M (S A : Type) : Type := World S → Outcome A * World S.

Definition ret {S A} (a : A) : M S A := fun w => (Returned a, w).

Definition bind {S A B} (m : M S A) (k : A → M S B) : M S B :=
  fun w =>
    match m w with
    | (Returned a, w') => k a w'
    | (Raised e, w') => (Raised e, w')
    end.

Definition raise {S A} (e : exn) : M S A := fun w => (Raised e, w).

Definition get {S} : M S S := fun w => (Returned (state w), w).

Definition modify {S} (f : S → S) : M S unit :=
  fun w => (Returned tt,
            {| calls := calls w; logs := logs w; state := f (state w) |}).

(** A record handed to [_LOGGER]. *)
Definition emit {S} (r : LogRecord) : M S unit :=
  fun w => (Returned tt,
            {| calls := calls w; logs := logs w ++ [r]; state := state w |}).

Definition log {S} (level fmt : string) (args : list string) : M S unit :=
  emit {| log_level := level; log_format := fmt; log_args := args |}.

Notation "'let*' x := m 'in' k" := (bind m (fun x => k))
  (at level 10, x pattern, m at level 100, k at level 200).
Notation "m ;; k" := (bind m (fun _ => k))
  (at level 100, right associativity).

(** The handler of the first [except cls] clause that matches. *)
Fixpoint select_handler {S A} (clauses : list (string * (exn → M S A)))
    (e : exn) : option (M S A) :=
  match clauses with
  | [] => None
  | (cls, handler) :: rest =>
      if isinstance e cls then Some (handler e) else select_handler rest e
  end.

(** [try: body  except cls1 as e: ...  except cls2 as e: ...] *)
Definition try_except {S A} (body : M S A)
    (clauses : list (string * (exn → M S A))) : M S A :=
  fun w =>
    match body w with
    | (Returned a, w') => (Returned a, w')
    | (Raised e, w') =>
        match select_handler clauses e with
        | Some handler => handler w'
        | None => (Raised e, w')
        end
    end.

(** [for x in l: body] *)
Fixpoint for_each {S A} (l : list A) (body : A → M S unit) : M S unit :=
  match l with
  | [] => ret tt
  | x :: rest => body x ;; for_each rest body
  end.

(** What reaches the caller of a coroutine: a [StopIteration] that gets
    to its top is replaced by a [RuntimeError] (PEP 479). *)
Definition pep479 (e : exn) : exn :=
  if isinstance e "StopIteration"
  then RuntimeError "coroutine raised StopIteration" e
  else e.

(** [async def]: the body, with its escaping exception passed through
    [pep479]. *)
Definition coroutine {S A} (body : M S A) : M S A :=
  fun w =>
    match body w with
    | (Raised e, w') => (Raised (pep479 e), w')
    | r => r
    end.

Section WithEnv.
Variable env : Env.

(** A call that leaves the integration: recorded, then answered. *)
Definition extcall {S} (c : Call) : M S unit :=
  fun w =>
    let w' := {| calls := calls w ++ [c]; logs := logs w; state := state w |} in
    match raises env (calls w) c with
    | Some e => (Raised e, w')
    | None => (Returned tt, w')
    end.

(** *** Updates of the host state *)

Definition set_entry (f : ConfigEntry → ConfigEntry) (h : Hass) : Hass :=
  {| entity_registry := entity_registry h; device_registry := device_registry h;
     issues := issues h; hass_data := hass_data h; entry := f (entry h) |}.

Definition set_data (d : EntryData) (e : ConfigEntry) : ConfigEntry :=
  {| entry_id := entry_id e; title := title e; version := version e;
     data := d; runtime_data := runtime_data e |}.

Definition set_version (v : Z) (e : ConfigEntry) : ConfigEntry :=
  {| entry_id := entry_id e; title := title e; version := v;
     data := data e; runtime_data := runtime_data e |}.

Definition set_runtime_data (r : RuntimeData) (e : ConfigEntry) : ConfigEntry :=
  {| entry_id := entry_id e; title := title e; version := version e;
     data := data e; runtime_data := Some r |}.

Definition set_docks (ds : list (gmap string string)) (d : EntryData) : EntryData :=
  {| data_host := data_host d; data_pin := data_pin d;
     data_apiKey := data_apiKey d; data_docks := Some ds |}.

Definition set_entity_registry (f : list RegistryEntry → list RegistryEntry)
    (h : Hass) : Hass :=
  {| entity_registry := f (entity_registry h); device_registry := device_registry h;
     issues := issues h; hass_data := hass_data h; entry := entry h |}.

Definition set_device_registry (f : list DeviceEntry → list DeviceEntry)
    (h : Hass) : Hass :=
  {| entity_registry := entity_registry h; device_registry := f (device_registry h);
     issues := issues h; hass_data := hass_data h; entry := entry h |}.

Definition set_issues
    (f : gmap (string * string) Issue → gmap (string * string) Issue)
    (h : Hass) : Hass :=
  {| entity_registry := entity_registry h; device_registry := device_registry h;
     issues := f (issues h); hass_data := hass_data h; entry := entry h |}.

(** [d[key]] on a dictionary read as an option: [KeyError] when absent. *)
Definition subscript {S A} (key : string) (v : option A) : M S A :=
  match v with
  | Some a => ret a
  | None => raise (KeyError key)
  end.

(** ** Dock reconciliation ([async_setup_entry], lines 120-144) *)

(** [{"id": dock.id, "name": dock.name, "password": ""}] *)
Definition new_dock_record (dock : Dock.t) : gmap string string :=
  <["id" := Dock.id dock]> (<["name" := Dock.name dock]> (<["password" := ""]> ∅)).

(** The inner loop over [remote_api.docks] with its [break]. *)
Fixpoint found_in_docks (config_dock : gmap string string)
    (docks : list Dock.t) : bool :=
  match docks with
  | [] => false
  | dock :: rest =>
      if bool_decide (config_dock !! "id" = Some (Dock.id dock)) then true
      else found_in_docks config_dock rest
  end.

(** The inner loop over [entry.data["docks"]] with its [break]. *)
Fixpoint found_in_config (dock : Dock.t)
    (config_docks : list (gmap string string)) : bool :=
  match config_docks with
  | [] => false
  | config_dock :: rest =>
      if bool_decide (config_dock !! "id" = Some (Dock.id dock)) then true
      else found_in_config dock rest
  end.

(** [l.remove(x)]: drops the first element equal to [x]; [None] is
    Python's [ValueError]. *)
Fixpoint list_remove (x : gmap string string) (l : list (gmap string string))
    : option (list (gmap string string)) :=
  match l with
  | [] => None
  | y :: rest =>
      if bool_decide (y = x) then Some rest
      else match list_remove x rest with
           | Some rest' => Some (y :: rest')
           | None => None
           end
  end.

(** First loop: [copy] is [list(entry.data["docks"])], [config_docks] the
    list being mutated. *)
Fixpoint remove_vanished (live : list Dock.t)
    (copy config_docks : list (gmap string string)) (config_updated : bool)
    : option (list (gmap string string) * bool) :=
  match copy with
  | [] => Some (config_docks, config_updated)
  | config_dock :: rest =>
      if found_in_docks config_dock live
      then remove_vanished live rest config_docks config_updated
      else match list_remove config_dock config_docks with
           | Some config_docks' => remove_vanished live rest config_docks' true
           | None => None
           end
  end.

(** Second loop: appends to the list it searches. *)
Fixpoint append_new (live : list Dock.t)
    (config_docks : list (gmap string string)) (config_updated : bool)
    : list (gmap string string) * bool :=
  match live with
  | [] => (config_docks, config_updated)
  | dock :: rest =>
      if found_in_config dock config_docks
      then append_new rest config_docks config_updated
      else append_new rest (config_docks ++ [new_dock_record dock]) true
  end.

(** Both loops; the result is the new list and [config_updated]. *)
Definition reconcile_docks (live : list Dock.t)
    (config_docks : list (gmap string string))
    : option (list (gmap string string) * bool) :=
  match remove_vanished live config_docks config_docks false with
  | Some (config_docks', config_updated) =>
      Some (append_new live config_docks' config_updated)
  | None => None
  end.

(** The reconciliation as the setup routine runs it on the entry. *)
Definition synchronize_docks (remote_api : Remote.t) : M Hass unit :=
  let* h := get in
  let* config_docks := subscript "docks" (data_docks (data (entry h))) in
  match reconcile_docks (Remote.docks remote_api) config_docks with
  | None => raise (ValueError "list.remove(x): x not in list")
  | Some (config_docks', config_updated) =>
      modify (set_entry (fun e => set_data (set_docks config_docks' (data e)) e)) ;;
      if config_updated then extcall async_update_entry else ret tt
  end.

(** *** The reconciliation in the specification's words *)

Definition live_ids (live : list Dock.t) : list string := Dock.id <$> live.

Definition persisted_ids (config_docks : list (gmap string string))
    : list string :=
  omap (fun c : gmap string string => c !! "id") config_docks.

(** The record's id occurs among the live docks. *)
Definition id_is_live (live : list Dock.t) (c : gmap string string) : bool :=
  match c !! "id" with
  | Some i => bool_decide (i ∈ live_ids live)
  | None => false
  end.

(** The persisted records whose id is live, in their order. *)
Definition kept_records (live : list Dock.t)
    (config_docks : list (gmap string string)) : list (gmap string string) :=
  List.filter (id_is_live live) config_docks.

(** One fresh record for each live dock whose id is not persisted. *)
Definition new_records (live : list Dock.t)
    (config_docks : list (gmap string string)) : list (gmap string string) :=
  new_dock_record <$>
    List.filter (fun d => negb (bool_decide (Dock.id d ∈ persisted_ids config_docks)))
                live.

(** The live docks whose id is not in [seen], the first dock of each id
    only. *)
Fixpoint first_per_id (seen : list string) (live : list Dock.t) : list Dock.t :=
  match live with
  | [] => []
  | d :: rest =>
      if bool_decide (Dock.id d ∈ seen) then first_per_id seen rest
      else d :: first_per_id (Dock.id d :: seen) rest
  end.

(** ** Version-1 migration *)

(** [_migrate_device_identifiers] *)
Definition migrate_device (remote_api : Remote.t) (dev : DeviceEntry)
    : M Hass unit :=
  match identifiers dev with
  | [] => raise StopIteration
  | old_identifier :: _ =>
      match old_identifier !! 1%nat with
      | None => raise (IndexError "list index out of range")
      | Some second =>
          if negb (PyStr.contains "ucr" (PyStr.lower second))
             && negb (PyStr.contains "ucd" (PyStr.lower second))
          then
            let new_identifier :=
              [[DOMAIN (const env); Remote.model_number remote_api;
                Remote.serial_number remote_api]] in
            log "debug" "migrate identifier '%s' to '%s'" [device_id dev] ;;
            extcall (dr_async_update_device (device_id dev)) ;;
            modify (set_device_registry (fmap (fun d =>
              if String.eqb (device_id d) (device_id dev)
              then {| device_id := device_id d;
                      device_config_entries := device_config_entries d;
                      identifiers := new_identifier |}
              else d)))
          else ret tt
      end
  end.

Definition _migrate_device_identifiers (entry_id : string)
    (remote_api : Remote.t) : M Hass unit :=
  let* h := get in
  let devices :=
    List.filter (fun d => bool_decide (entry_id ∈ device_config_entries d))
                (device_registry h) in
  for_each devices (migrate_device remote_api).

(** [_update_config_entry] *)
Definition _update_config_entry (remote_api : Remote.t) : M Hass bool :=
  let* h := get in
  match data_docks (data (entry h)) with
  | None =>
      let docks := new_dock_record <$> Remote.docks remote_api in
      extcall async_update_entry ;;
      modify (set_entry (fun e => set_data (set_docks docks (data e)) e)) ;;
      ret true
  | Some _ => ret true
  end.

(** The host's [er.async_migrate_entries]: the callback is applied to
    the registry entries of this config entry. *)
Definition async_migrate_entries (entry_id : string)
    (callback : RegistryEntry → option RegistryUpdates) : M Hass unit :=
  extcall (er_async_migrate_entries entry_id) ;;
  modify (set_entity_registry (fmap (fun e =>
    if String.eqb (config_entry_id e) entry_id
    then apply_updates e (callback e) else e))).

Definition migrate_version_1 (remote_api : Remote.t) : M Hass unit :=
  let* h := get in
  if (version (entry h) =? 1)%Z then
    async_migrate_entries (entry_id (entry h))
      (async_migrate_entity_entry (Remote.model_number remote_api)
                                  (Remote.serial_number remote_api)) ;;
    _migrate_device_identifiers (entry_id (entry h)) remote_api ;;
    _update_config_entry remote_api ;;
    extcall async_update_entry ;;
    modify (set_entry (set_version 2))
  else ret tt.

(** ** Dock coordinators ([async_setup_entry], lines 148-190) *)

(** The inner loop with its [break]: the value assigned to
    [dock._password], if a record matches. *)
Fixpoint find_password (dock : Dock.t)
    (config_docks : list (gmap string string)) : option (option string) :=
  match config_docks with
  | [] => None
  | config_entry :: rest =>
      if bool_decide (config_entry !! "id" = Some (Dock.id dock))
      then Some (config_entry !! "password")
      else find_password dock rest
  end.

Definition dock_password_issue (dock : Dock.t) : Issue :=
  {| is_fixable := true; is_persistent := false;
     translation_key := "dock_password";
     translation_placeholders := {["name" := Dock.name dock]} |}.

(** Lines 149-152: the dock with the stored password assigned, when a
    record of its id exists. *)
Definition assign_password (config_docks : list (gmap string string))
    (dock : Dock.t) : Dock.t :=
  match find_password dock config_docks with
  | Some p => Dock.set_password p dock
  | None => dock
  end.

(** The record written by [_LOGGER.error] when a dock cannot be reached. *)
Definition dock_error (dock : Dock.t) (ex : exn) : LogRecord :=
  {| log_level := "error";
     log_format := "Could not initialize connection to dock %s (%s): %s";
     log_args := [Dock.name dock; Dock.endpoint dock; exn_msg ex] |}.

Definition new_dock_coordinator (dock : Dock.t) : UnfoldedCircleDockCoordinator.t :=
  {| UnfoldedCircleDockCoordinator.api := dock;
     UnfoldedCircleDockCoordinator.data :=
       dock_coordinator_data env (Dock.id dock) |}.

(** The body of the loop for one dock: the dock as left behind and the
    list [dock_coordinators]. *)
Definition setup_dock (dock : Dock.t)
    (dock_coordinators : list UnfoldedCircleDockCoordinator.t)
    : M Hass (Dock.t * list UnfoldedCircleDockCoordinator.t) :=
  let* h := get in
  let* config_docks := subscript "docks" (data_docks (data (entry h))) in
  let dock := assign_password config_docks dock in
  if Dock.has_password dock then
    extcall (DockCoordinator_new (Dock.id dock)) ;;
    let dock_coordinator := new_dock_coordinator dock in
    let* dock_coordinators' :=
      try_except
        (extcall (dock_api_update (Dock.id dock)) ;;
         extcall (dock_first_refresh (Dock.id dock)) ;;
         ret (dock_coordinators ++ [dock_coordinator])%list)
        [("Exception", fun ex =>
            emit (dock_error dock ex) ;;
            ret dock_coordinators)] in
    ret (dock, dock_coordinators')
  else
    log "debug" "Empty dock password %s (%s) for remote %s"
        [Dock.name dock; Dock.id dock; title (entry h)] ;;
    extcall (async_create_issue (DOMAIN (const env))
                                ("dock_password_" +:+ Dock.id dock)) ;;
    modify (set_issues
      (insert (DOMAIN (const env), "dock_password_" +:+ Dock.id dock)
              (dock_password_issue dock))) ;;
    ret (dock, dock_coordinators).

(** [for dock in remote_api.docks]: [seen] collects the docks already
    visited, with the passwords assigned to them. *)
Fixpoint setup_docks (docks seen : list Dock.t)
    (dock_coordinators : list UnfoldedCircleDockCoordinator.t)
    : M Hass (list Dock.t * list UnfoldedCircleDockCoordinator.t) :=
  match docks with
  | [] => ret (seen, dock_coordinators)
  | dock :: rest =>
      let* (dock', dock_coordinators') := setup_dock dock dock_coordinators in
      setup_docks rest (seen ++ [dock'])%list dock_coordinators'
  end.

(** ** [async_setup_entry] *)

Definition websocket_connection_issue (remote_api : Remote.t) : Issue :=
  {| is_fixable := true; is_persistent := false;
     translation_key := "websocket_connection";
     translation_placeholders := {["name" := Remote.name remote_api]} |}.

(** Python truth of the value [get_registered_websocket_url] returns. *)
Definition truthy (url : option string) : bool :=
  match url with
  | Some u => negb (String.eqb u "")
  | None => false
  end.

(** Lines 57-59, the body of the [try]: the client is built from the
    stored host, pin and key, the connection validated and the device
    information fetched. *)
Definition new_remote : M Hass Remote.t :=
  let* h := get in
  let* host := subscript "host" (data_host (data (entry h))) in
  let* pin := subscript "pin" (data_pin (data (entry h))) in
  let* apiKey := subscript "apiKey" (data_apiKey (data (entry h))) in
  extcall (Remote_new host pin apiKey) ;;
  extcall validate_connection ;;
  extcall get_remote_information ;;
  ret (device env).

(** Lines 56-66: the [try] with its three [except] clauses. *)
Definition connect : M Hass Remote.t :=
  try_except new_remote
    [("AuthenticationError", fun err => raise (ConfigEntryAuthFailed err));
     ("ConnectionError", fun err => raise (ConfigEntryNotReady err));
     ("Exception", fun ex => raise (ConfigEntryNotReady ex))].

(** Lines 196-219: first refresh, websocket advisory, platforms. *)
Definition finish_setup (remote_api : Remote.t) : M Hass bool :=
  extcall async_config_entry_first_refresh ;;
  (if Remote.external_entity_configuration_available remote_api then
     extcall get_registered_websocket_url ;;
     if negb (truthy (registered_websocket_url env)) then
       extcall (async_create_issue (DOMAIN (const env)) "websocket_connection") ;;
       modify (set_issues
         (insert (DOMAIN (const env), "websocket_connection")
                 (websocket_connection_issue remote_api)))
     else ret tt
   else ret tt) ;;
  extcall (async_forward_entry_setups PLATFORMS) ;;
  extcall add_update_listener ;;
  extcall zeroconf_async_get_async_instance ;;
  extcall init_websocket ;;
  ret true.

(** Lines 68-194: everything between the [try] and the first refresh;
    the result is the [RuntimeData] stored on the entry. *)
Definition wire_runtime_data (remote_api : Remote.t) : M Hass RuntimeData :=
  extcall RemoteCoordinator_new ;;
  extcall api_init ;;
  migrate_version_1 remote_api ;;
  synchronize_docks remote_api ;;
  let* (docks, dock_coordinators) :=
    setup_docks (Remote.docks remote_api) [] [] in
  let remote_api := Remote.set_docks docks remote_api in
  let coordinator :=
    {| UnfoldedCircleRemoteCoordinator.api := remote_api;
       UnfoldedCircleRemoteCoordinator.data := remote_coordinator_data env |} in
  let runtime_data :=
    {| coordinator := coordinator; remote := remote_api;
       dock_coordinators := dock_coordinators |} in
  modify (set_entry (set_runtime_data runtime_data)) ;;
  ret runtime_data.

Definition async_setup_entry : M Hass bool :=
  coroutine (
    let* remote_api := connect in
    let* runtime_data := wire_runtime_data remote_api in
    finish_setup (remote runtime_data)).

(** ** [async_unload_entry] and [async_remove_entry] *)

(** [entry.runtime_data]: [AttributeError] before setup has stored it. *)
Definition get_runtime_data : M Hass RuntimeData :=
  let* h := get in
  match runtime_data (entry h) with
  | Some r => ret r
  | None => raise (AttributeError "runtime_data")
  end.

Definition delete_dock_issue (dock : Dock.t) : M Hass unit :=
  extcall (async_delete_issue (DOMAIN (const env))
                              ("dock_password_" +:+ Dock.id dock)) ;;
  modify (set_issues
    (delete (DOMAIN (const env), "dock_password_" +:+ Dock.id dock))).

(** Lines 227-231, the body of the [try] of [async_unload_entry]. *)
Definition unload_body : M Hass unit :=
  let* r := get_runtime_data in
  let coordinator := coordinator r in
  extcall close_websocket ;;
  for_each (Remote.docks (UnfoldedCircleRemoteCoordinator.api coordinator))
           delete_dock_issue.

Definition unload_error (ex : exn) : LogRecord :=
  {| log_level := "error";
     log_format := "Unfolded Circle Remote async_unload_entry error: %s";
     log_args := [exn_msg ex] |}.

(** Lines 226-233: the [try] with its handler. *)
Definition unload_guarded : M Hass unit :=
  try_except unload_body [("Exception", fun ex => emit (unload_error ex))].

Definition async_unload_entry : M Hass bool :=
  coroutine (
    unload_guarded ;;
    extcall (async_unload_platforms PLATFORMS) ;;
    ret (unload_ok env)).

(** Lines 244-254, the body of the outer [try] of [async_remove_entry],
    with the inner [try] around the token deletion. *)
Definition remove_body : M Hass unit :=
  let* h := get in
  log "debug" "Removing remote from Home assistant for entry %s"
      [entry_id (entry h)] ;;
  let* host := subscript "host" (data_host (data (entry h))) in
  let* pin := subscript "pin" (data_pin (data (entry h))) in
  let* apiKey := subscript "apiKey" (data_apiKey (data (entry h))) in
  extcall (Remote_new host pin apiKey) ;;
  try_except
    (extcall (delete_token_for_external_system
                (UC_HA_SYSTEM (const env)) (UC_HA_TOKEN_ID (const env))) ;;
     log "debug" "Results of token deletion : %s" [])
    [("ConnectionError", fun _ =>
        log "error"
          "Remote is unavailable, the HA token cannot be checked and won't be removed"
          [])].

Definition remove_error (ex : exn) : LogRecord :=
  {| log_level := "error";
     log_format := "Unfolded Circle Remote async_remove_entry error: %s";
     log_args := [exn_msg ex] |}.

Definition async_remove_entry : M Hass unit :=
  coroutine (
    try_except remove_body [("Exception", fun ex => emit (remove_error ex))]).

(** [async_migrate_entry] *)
Definition async_migrate_entry : M Hass bool := ret true.

End WithEnv.

(** ** Kinds of environments and of failures *)

(** What an [except Exception] clause catches. *)
Definition is_exception (e : exn) : Prop := isinstance e "Exception" = true.

(** Every exception the environment raises derives from [Exception]. *)
Definition only_exceptions (env : Env) : Prop :=
  ∀ hist c e, raises env hist c = Some e → is_exception e.

(** Every exception [m] can end with satisfies [E]. *)
Definition raises_only {S A} (E : exn → Prop) (m : M S A) : Prop :=
  ∀ w e w', m w = (Raised e, w') → E e.

(** [m] leaves the component [f] of the state as it was. *)
Definition keeps {S A B} (f : S → B) (m : M S A) : Prop :=
  ∀ w, f (state (snd (m w))) = f (state w).



(** ** The update platform ([update.py]) *)

(** The value of [_attr_in_progress]: Python's [False], ["0"] or a
    percentage. *)
Inductive InProgress :=
| InProgressBool (b : bool)
| InProgressStr (s : string)
| InProgressInt (n : Z).

Module Update.
Record t := {
  coordinator : UnfoldedCircleRemoteCoordinator.t;
  _attr_unique_id : string;
  _attr_name : string;
  _attr_auto_update : bool;
  _attr_installed_version : string;
  _attr_latest_version : string;
  _attr_release_notes : string;
  _attr_in_progress : InProgress;
  _attr_title : string
}.

Definition api (self : t) : Remote.t :=
  UnfoldedCircleRemoteCoordinator.api (coordinator self).

(** [Update.__init__]; [_attr_in_progress] starts at the host's
    default [False]. *)
Definition __init__ (coordinator : UnfoldedCircleRemoteCoordinator.t) : t :=
  let api := UnfoldedCircleRemoteCoordinator.api coordinator in
  {| coordinator := coordinator;
     _attr_unique_id := Remote.name api +:+ "_update_status";
     _attr_name := Remote.name api +:+ " Firmware";
     _attr_auto_update := Remote.automatic_updates api;
     _attr_installed_version := Remote.sw_version api;
     _attr_latest_version := Remote.latest_sw_version api;
     _attr_release_notes := Remote.release_notes api;
     _attr_in_progress := InProgressBool false;
     _attr_title := Remote.name api +:+ " Firmware" |}.

Definition set_in_progress (p : InProgress) (self : t) : t :=
  {| coordinator := coordinator self;
     _attr_unique_id := _attr_unique_id self;
     _attr_name := _attr_name self;
     _attr_auto_update := _attr_auto_update self;
     _attr_installed_version := _attr_installed_version self;
     _attr_latest_version := _attr_latest_version self;
     _attr_release_notes := _attr_release_notes self;
     _attr_in_progress := p;
     _attr_title := _attr_title self |}.

Definition set_versions (installed latest : string) (self : t) : t :=
  {| coordinator := coordinator self;
     _attr_unique_id := _attr_unique_id self;
     _attr_name := _attr_name self;
     _attr_auto_update := _attr_auto_update self;
     _attr_installed_version := installed;
     _attr_latest_version := latest;
     _attr_release_notes := _attr_release_notes self;
     _attr_in_progress := _attr_in_progress self;
     _attr_title := _attr_title self |}.

(** [Update.async_install] *)
Definition async_install (env : Env) : M t unit :=
  let* self := get in
  if Remote.update_in_progress (api self) then ret tt
  else
    extcall env update_remote ;;
    modify (set_in_progress (InProgressStr "0")) ;;
    extcall env async_write_ha_state.


(** [Update._handle_coordinator_update] *)
Definition _handle_coordinator_update (env : Env) : M t unit :=
  let* self := get in
  (if Remote.update_in_progress (api self) then
     if (Remote.update_percent (api self) =? 0)%Z
     then modify (set_in_progress (InProgressStr "0"))
     else modify (set_in_progress (InProgressInt (Remote.update_percent (api self))))
   else
     modify (set_in_progress (InProgressBool false)) ;;
     modify (fun self =>
       set_versions (Remote.sw_version (api self))
                    (Remote.latest_sw_version (api self)) self)) ;;
  extcall env async_write_ha_state.

(** [async_setup_entry] of the update platform: the entities handed
    to [async_add_entities]. *)
Definition async_setup_entry (env : Env) : M Hass (list t) :=
  let* h := get in
  let* by_domain := subscript (DOMAIN (const env))
                      (hass_data h !! DOMAIN (const env)) in
  let* by_entry := subscript (entry_id (entry h))
                      (by_domain !! entry_id (entry h)) in
  let* coordinator := subscript (UNFOLDED_CIRCLE_COORDINATOR (const env))
                      (by_entry !! UNFOLDED_CIRCLE_COORDINATOR (const env)) in
  ret [__init__ coordinator].
End Update.

(** ** The number platform ([number.py]) *)

(** The setter functions for the remote. *)
Inductive RemoteControlFn :=
| update_remote_display_settings
| update_remote_button_settings
| update_remote_sound_settings
| update_remote_display_timeout_settings
| update_remote_wakeup_sensitivity_settings
| update_remote_sleep_timeout_settings.

(** The setter functions for a dock. *)
Inductive DockControlFn :=
| update_dock_led_brightness
| update_dock_ethernet_led_brightness.

(** The client call each remote setter awaits. *)
Definition remote_control_call (f : RemoteControlFn) (value : Z) : Call :=
  match f with
  | update_remote_display_settings =>
      api_patch "patch_remote_display_settings" "brightness" value
  | update_remote_button_settings =>
      api_patch "patch_remote_button_settings" "brightness" value
  | update_remote_sound_settings =>
      api_patch "patch_remote_sound_settings" "sound_effects_volume" value
  | update_remote_display_timeout_settings =>
      api_patch "patch_remote_power_saving_settings" "display_timeout" value
  | update_remote_wakeup_sensitivity_settings =>
      api_patch "patch_remote_power_saving_settings" "wakeup_sensitivity" value
  | update_remote_sleep_timeout_settings =>
      api_patch "patch_remote_power_saving_settings" "sleep_timeout" value
  end.

(** The client call each dock setter awaits; [command_value = str(value)]. *)
Definition dock_control_call (f : DockControlFn)
    (coordinator : UnfoldedCircleDockCoordinator.t) (value : Z) : Call :=
  let command_value := PyStr.str_of_int value in
  let dock := Dock.id (UnfoldedCircleDockCoordinator.api coordinator) in
  match f with
  | update_dock_led_brightness =>
      dock_send_command dock "SET_LED_BRIGHTNESS" command_value
  | update_dock_ethernet_led_brightness =>
      dock_send_command dock "SET_ETHERNET_LED_BRIGHTNESS" command_value
  end.

(** [UnfoldedCircleNumberEntityDescription]; [F] is the type of the
    setter the description names. *)
Record UnfoldedCircleNumberEntityDescription (F : Type) := {
  key : string;
  name : string;
  unique_id_ : string;
  icon : string;
  control_fn : F;
  native_min_value : Z;
  native_max_value : Z;
  entity_registry_enabled_default : bool;
  entity_registry_visible_default : bool
}.
Arguments key {F} _.
Arguments name {F} _.
Arguments unique_id_ {F} _.
Arguments icon {F} _.
Arguments control_fn {F} _.
Arguments native_min_value {F} _.
Arguments native_max_value {F} _.

Definition description {F} (key name unique_id icon : string) (control_fn : F)
    (lo hi : Z) (enabled visible : bool)
    : UnfoldedCircleNumberEntityDescription F :=
  {| key := key; name := name; unique_id_ := unique_id; icon := icon;
     control_fn := control_fn; native_min_value := lo; native_max_value := hi;
     entity_registry_enabled_default := enabled;
     entity_registry_visible_default := visible |}.

Definition UNFOLDED_CIRCLE_NUMBER
    : list (UnfoldedCircleNumberEntityDescription RemoteControlFn) :=
  [ description "display_brightness" "Display Brightness" "display_brightness"
      "mdi:brightness-5" update_remote_display_settings 0 100 true true;
    description "button_backlight_brightness" "Button Backlight Brightness"
      "button_backlight_brightness" "mdi:keyboard-settings-outline"
      update_remote_button_settings 0 100 true true;
    description "sound_effects_volume" "Sound Effects Volume"
      "sound_effects_volume" "mdi:volume-medium"
      update_remote_sound_settings 0 100 true true;
    description "display_timeout" "Display Timeout" "display_timeout"
      "mdi:vibrate" update_remote_display_timeout_settings 0 60 true true;
    description "wakeup_sensitivity" "Wake Sensitivity" "wakeup_sensitivity"
      "mdi:sleep-off" update_remote_wakeup_sensitivity_settings 0 3 true true;
    description "sleep_timeout" "Sleep Timeout" "sleep_timeout"
      "mdi:power-sleep" update_remote_sleep_timeout_settings 0 1800 true true ].

Definition UNFOLDED_CIRCLE_DOCK_NUMBER
    : list (UnfoldedCircleNumberEntityDescription DockControlFn) :=
  [ description "led_brightness" "LED Brightness" "display_brightness"
      "mdi:brightness-5" update_dock_led_brightness 0 100 true true;
    description "ethernet_led_brightness" "Ethernet LED Brightness"
      "button_backlight_brightness" "mdi:lan"
      update_dock_ethernet_led_brightness 0 100 false false ].

(** [int(value)] for a finite float: truncation towards zero. *)
Definition int_of_float (value : Q) : Z :=
  Z.quot (Qnum value) (Z.pos (Qden value)).

Module UCRemoteNumber.
Record t := {
  coordinator : UnfoldedCircleRemoteCoordinator.t;
  entity_description : UnfoldedCircleNumberEntityDescription RemoteControlFn;
  _attr_has_entity_name : bool;
  _attr_unique_id : string;
  _attr_name : string;
  _attr_native_value : option Z;
  _attr_icon : string
}.

(** [UCRemoteNumber.__init__] *)
Definition __init__ (coordinator : UnfoldedCircleRemoteCoordinator.t)
    (description : UnfoldedCircleNumberEntityDescription RemoteControlFn) : t :=
  let api := UnfoldedCircleRemoteCoordinator.api coordinator in
  {| coordinator := coordinator;
     entity_description := description;
     _attr_has_entity_name := true;
     _attr_unique_id :=
       Remote.model_number api +:+ "_" +:+ Remote.serial_number api
         +:+ "_" +:+ unique_id_ description;
     _attr_name := name description;
     _attr_native_value :=
       UnfoldedCircleRemoteCoordinator.data coordinator
         !! ("_" +:+ key description);
     _attr_icon := icon description |}.

(** [UCRemoteNumber.async_set_native_value] *)
Definition async_set_native_value (env : Env) (value : Q) : M t unit :=
  let* self := get in
  let value_int := int_of_float value in
  extcall env (remote_control_call (control_fn (entity_description self)) value_int) ;;
  extcall env (async_request_refresh None).
End UCRemoteNumber.

Module UCDockNumber.
Record t := {
  coordinator : UnfoldedCircleDockCoordinator.t;
  entity_description : UnfoldedCircleNumberEntityDescription DockControlFn;
  _attr_has_entity_name : bool;
  _attr_unique_id : string;
  _attr_name : string;
  _attr_native_value : option Z;
  _attr_icon : string
}.

(** [UCDockNumber.__init__] *)
Definition __init__ (coordinator : UnfoldedCircleDockCoordinator.t)
    (description : UnfoldedCircleNumberEntityDescription DockControlFn) : t :=
  let api := UnfoldedCircleDockCoordinator.api coordinator in
  {| coordinator := coordinator;
     entity_description := description;
     _attr_has_entity_name := true;
     _attr_unique_id :=
       Dock.model_number api +:+ "_" +:+ Dock.serial_number api
         +:+ "_" +:+ unique_id_ description;
     _attr_name := name description;
     _attr_native_value :=
       UnfoldedCircleDockCoordinator.data coordinator
         !! ("_" +:+ key description);
     _attr_icon := icon description |}.

(** [UCDockNumber.async_set_native_value] *)
Definition async_set_native_value (env : Env) (value : Q) : M t unit :=
  let* self := get in
  let value_int := int_of_float value in
  extcall env (dock_control_call (control_fn (entity_description self))
                             (coordinator self) value_int) ;;
  extcall env (async_request_refresh
             (Some (Dock.id (UnfoldedCircleDockCoordinator.api (coordinator self))))).
End UCDockNumber.

(** [async_setup_entry] of the number platform: the entities handed to
    [async_add_entities]. *)
Definition number_async_setup_entry (env : Env)
    : M Hass (list UCRemoteNumber.t * list UCDockNumber.t) :=
  let* r := get_runtime_data in
  ret (UCRemoteNumber.__init__ (coordinator r) <$> UNFOLDED_CIRCLE_NUMBER,
       dc ← dock_coordinators r;
       UCDockNumber.__init__ dc <$> UNFOLDED_CIRCLE_DOCK_NUMBER).


(** ** Scenarios

    Concrete devices, environments and host states used by the examples
    below. *)

Definition example_const : Const :=
  {| DOMAIN := "unfoldedcircle";
     UNFOLDED_CIRCLE_COORDINATOR := "unfolded_circle_coordinator";
     UC_HA_SYSTEM := "hass";
     UC_HA_TOKEN_ID := "ws-ha-api" |}.

Definition example_dock (id name : string) : Dock.t :=
  {| Dock.id := id; Dock.name := name; Dock.endpoint := "ws://" +:+ id;
     Dock._password := None; Dock.model_number := "UCD2";
     Dock.serial_number := "D" +:+ id |}.

Definition example_remote (model_number : string) (docks : list Dock.t)
    : Remote.t :=
  {| Remote.name := "Remote Two"; Remote.model_number := model_number;
     Remote.serial_number := "0001"; Remote.docks := docks;
     Remote.external_entity_configuration_available := true;
     Remote.sw_version := "2.1.0"; Remote.latest_sw_version := "2.2.0";
     Remote.release_notes := ""; Remote.automatic_updates := false;
     Remote.update_in_progress := false; Remote.update_percent := 0 |}.

(** An environment in which the calls listed in [failing] raise [e] and
    every other call returns. *)
Definition example_env (device : Remote.t) (failing : list Call) (e : exn)
    : Env :=
  {| const := example_const;
     raises := fun _ c => if bool_decide (c ∈ failing) then Some e else None;
     device := device;
     remote_coordinator_data := ∅;
     dock_coordinator_data := fun _ => ∅;
     registered_websocket_url := Some "ws://homeassistant.local/api/websocket";
     unload_ok := true |}.

Definition example_entry (version : Z)
    (docks : option (list (gmap string string))) : ConfigEntry :=
  {| entry_id := "entry1"; title := "Remote Two"; version := version;
     data := {| data_host := Some "192.168.1.20"; data_pin := Some "1234";
                data_apiKey := Some "key"; data_docks := docks |};
     runtime_data := None |}.

Definition example_hass (registry : list RegistryEntry) (e : ConfigEntry)
    : World Hass :=
  {| calls := []; logs := [];
     state := {| entity_registry := registry;
                 device_registry :=
                   [{| device_id := "device1";
                       device_config_entries := ["entry1"];
                       identifiers := [["unfoldedcircle"; "0001"]] |}];
                 issues := ∅; hass_data := ∅; entry := e |} |}.

Definition example_entity (domain unique_id : string) : RegistryEntry :=
  {| entity_id := domain +:+ ".remote_two"; config_entry_id := "entry1";
     domain := domain; unique_id := unique_id |}.

Definition ConnectionError (m : string) : exn :=
  Exn (Exception_mro ["ConnectionError"; "OSError"]) m None.

Definition CancelledError : exn :=
  Exn ["CancelledError"; "BaseException"] "" None.

(** The legacy scenario of the specification: a version-1 entry, one
    entity with unique id ["brightness"], model number ["UCR"]. *)
Definition legacy_env : Env := example_env (example_remote "UCR" []) [] StopIteration.
Definition legacy_world : World Hass :=
  example_hass [example_entity "number" "brightness"] (example_entry 1 None).

(** The reconciliation scenario of the specification: persisted docks 1
    and 2, live docks 2 and 3. *)
Definition dock_record (id name password : string) : gmap string string :=
  <["id" := id]> (<["name" := name]> (<["password" := password]> ∅)).
Definition scenario_persisted : list (gmap string string) :=
  [dock_record "1" "Dock One" "secret1"; dock_record "2" "Dock Two" "secret2"].
Definition scenario_live : list Dock.t :=
  [example_dock "2" "Dock Two"; example_dock "3" "Dock Three"].

Definition example_coordinator : UnfoldedCircleRemoteCoordinator.t :=
  {| UnfoldedCircleRemoteCoordinator.api := example_remote "UCR2" [];
     UnfoldedCircleRemoteCoordinator.data := {["_display_brightness" := 80]} |}.

(** An environment in which no call raises. *)
Definition quiet_env : Env := example_env (example_remote "UCR2" []) [] StopIteration.

(** A firmware entity whose device reports an installation at 0 %. *)
Definition installing_world : World Update.t :=
  {| calls := []; logs := [];
     state := Update.__init__
       {| UnfoldedCircleRemoteCoordinator.api :=
            {| Remote.name := "Remote Two"; Remote.model_number := "UCR2";
               Remote.serial_number := "0001"; Remote.docks := [];
               Remote.external_entity_configuration_available := true;
               Remote.sw_version := "2.1.0"; Remote.latest_sw_version := "2.2.0";
               Remote.release_notes := ""; Remote.automatic_updates := false;
               Remote.update_in_progress := true; Remote.update_percent := 0 |};
          UnfoldedCircleRemoteCoordinator.data := ∅ |} |}.


(** The LED-brightness entity of dock 2. *)
Definition led_world : World UCDockNumber.t :=
  {| calls := []; logs := [];
     state := UCDockNumber.__init__
       {| UnfoldedCircleDockCoordinator.api :=
            Dock.set_password (Some "secret2") (example_dock "2" "Dock Two");
          UnfoldedCircleDockCoordinator.data := ∅ |}
       (description "led_brightness" "LED Brightness" "display_brightness"
          "mdi:brightness-5" update_dock_led_brightness 0 100 true true) |}.


(** A version-2 entry with docks 1 and 2 persisted, on a remote that
    reports docks 2 and 3. *)
Definition two_dock_world : World Hass :=
  example_hass [example_entity "number" "UCR2_0001_display_brightness"]
               (example_entry 2 (Some scenario_persisted)).



(** The coordinator of dock 2 cannot be built. *)
Definition broken_dock_env : Env :=
  example_env (example_remote "UCR2" scenario_live) [DockCoordinator_new "2"]
              (ValueError "dock").

(** Dock 2 does not answer. *)
Definition silent_dock_env : Env :=
  example_env (example_remote "UCR2" scenario_live) [dock_api_update "2"]
              (ConnectionError "dock unreachable").

(** The platforms cannot be unloaded. *)
Definition stuck_platforms_env : Env :=
  example_env (example_remote "UCR2" scenario_live)
              [async_unload_platforms PLATFORMS] (ValueError "Config entry was never loaded!").

(** The device is gone when the entry is removed. *)
Definition unreachable_env : Env :=
  example_env (example_remote "UCR2" scenario_live)
              [delete_token_for_external_system "hass" "ws-ha-api"; close_websocket]
              (ConnectionError "unreachable").

(** Every call works. *)
Definition working_env : Env :=
  example_env (example_remote "UCR2" scenario_live) [] StopIteration.

(** The host after a successful setup of [two_dock_world]. *)
Definition loaded_world : World Hass :=
  snd (async_setup_entry working_env two_dock_world).

(** The host once the dock list is reconciled: dock 2 with its password,
    dock 3 new and without one. *)
Definition reconciled_docks : list (gmap string string) :=
  [dock_record "2" "Dock Two" "secret2"; dock_record "3" "Dock Three" ""].
Definition reconciled_world : World Hass :=
  example_hass [example_entity "number" "UCR2_0001_display_brightness"]
               (example_entry 2 (Some reconciled_docks)).

(** The removal is cancelled while the token is deleted. *)
Definition cancelling_env : Env :=
  example_env (example_remote "UCR2" scenario_live)
              [delete_token_for_external_system "hass" "ws-ha-api"]
              CancelledError.

(** A version-2 entry whose data has no ["docks"] key. *)
Definition keyless_world : World Hass :=
  example_hass [example_entity "number" "UCR2_0001_display_brightness"]
               (example_entry 2 None).

(** The second element of the device's first identifier carries the
    marker of the migration. *)
Definition device_is_marked (dev : DeviceEntry) : bool :=
  match identifiers dev with
  | [] => false
  | old_identifier :: _ =>
      match old_identifier !! 1%nat with
      | Some second => has_marker second
      | None => false
      end
  end.

(** The devices of the entry that are still to be visited are the only
    ones that may be unmarked. *)
Definition visited (entry_id : string) (l : list DeviceEntry)
    (w : World Hass) : Prop :=
  ∀ d, d ∈ device_registry (state w) → entry_id ∈ device_config_entries d →
       device_is_marked d = true ∨ d ∈ l.

(** Every step of [m] takes the state to one related to it by [R]. *)
Definition evolves {S A} (R : S → S → Prop) (m : M S A) : Prop :=
  ∀ w, R (state w) (state (snd (m w))).

(** No issue of [h] is missing from [h']. *)
Definition issues_grow (h h' : Hass) : Prop :=
  ∀ k, is_Some (issues h !! k) → is_Some (issues h' !! k).

(** A host on which the websocket advisory of an earlier setup is still
    filed. *)
Definition advised_world : World Hass :=
  {| calls := []; logs := [];
     state := set_issues
       (insert ("unfoldedcircle", "websocket_connection")
               (websocket_connection_issue (example_remote "UCR2" scenario_live)))
       (state two_dock_world) |}.

(** The key of the advisory issue of the dock with this id. *)
Definition dock_issue_key (env : Env) (id : string) : string * string :=
  (DOMAIN (const env), "dock_password_" +:+ id).

(** A loaded entry: the runtime data is stored and the issue of the
    passwordless dock 3 is filed. *)
Definition example_runtime_data : RuntimeData :=
  {| coordinator :=
       {| UnfoldedCircleRemoteCoordinator.api := example_remote "UCR2" scenario_live;
          UnfoldedCircleRemoteCoordinator.data := ∅ |};
     remote := example_remote "UCR2" scenario_live;
     dock_coordinators := [] |}.
Definition wired_world : World Hass :=
  {| calls := []; logs := [];
     state := set_issues
       (insert ("unfoldedcircle", "dock_password_3")
               (dock_password_issue (example_dock "3" "Dock Three")))
       (set_entry (set_runtime_data example_runtime_data)
                  (state two_dock_world)) |}.


(** * Properties *)

(** Closes [lhs = rhs] for closed terms by evaluating both sides. *)
Ltac by_evaluation :=
  lazymatch goal with
  | |- _ = ?rhs => vm_cast_no_check (@eq_refl _ rhs)
  end.

(** ** Strings *)

Section StringFacts.

Lemma startswith_refl (s : string) : PyStr.startswith s s = true.
Proof.
  induction s as [|c s IH]; simpl; [reflexivity|].
  rewrite Ascii.eqb_refl. exact IH.
Qed.

Lemma replace_from_skipped (old new s : string) (k : nat) :
  (String.length s <= k)%nat → PyStr.replace_from old new k s = "".
Proof.
  revert k. induction s as [|c s IH]; intros k Hk; simpl in *; [reflexivity|].
  destruct k as [|k]; [lia|]. apply IH. lia.
Qed.

Lemma append_cons (c : ascii) (s t : string) :
  String c s +:+ t = String c (s +:+ t).
Proof. reflexivity. Qed.

Lemma append_empty_r (s : string) : s +:+ "" = s.
Proof.
  induction s as [|c s IH]; [reflexivity|]. by rewrite append_cons, IH.
Qed.

(** [s.replace(s, new)] is [new], also for the empty [s]. *)
Lemma replace_self (s new : string) : PyStr.replace s new s = new.
Proof.
  destruct s as [|c s]; simpl.
  - apply append_empty_r.
  - rewrite Ascii.eqb_refl, startswith_refl. simpl.
    rewrite replace_from_skipped by reflexivity. apply append_empty_r.
Qed.

Lemma lower_app (a b : string) :
  PyStr.lower (a +:+ b) = PyStr.lower a +:+ PyStr.lower b.
Proof.
  induction a as [|c a IH]; [reflexivity|].
  rewrite append_cons. simpl. by rewrite IH.
Qed.

Lemma startswith_app (p a b : string) :
  PyStr.startswith p a = true → PyStr.startswith p (a +:+ b) = true.
Proof.
  revert a. induction p as [|c p IH]; intros a H; [reflexivity|].
  destruct a as [|d a]; [discriminate|].
  rewrite append_cons. simpl in *.
  apply andb_true_iff in H as [-> H]. simpl. by apply IH.
Qed.

Lemma contains_app (p a b : string) :
  PyStr.contains p a = true → PyStr.contains p (a +:+ b) = true.
Proof.
  induction a as [|d a IH]; intros H.
  - simpl in H. rewrite orb_false_r in H.
    destruct p; [|discriminate]. by destruct b.
  - cbn [PyStr.contains] in H. apply orb_true_iff in H as [H|H].
    + pose proof (startswith_app _ _ b H) as H'.
      rewrite append_cons in *. cbn [PyStr.contains].
      rewrite H'. reflexivity.
    + rewrite append_cons. cbn [PyStr.contains].
      rewrite (IH H). apply orb_true_r.
Qed.

(** A marker in the prefix is a marker in the whole identifier. *)
Lemma has_marker_app (a b : string) :
  has_marker a = true → has_marker (a +:+ b) = true.
Proof.
  unfold has_marker. rewrite lower_app. intros H.
  apply orb_true_iff in H as [H|H];
    rewrite (contains_app _ _ _ H); [reflexivity | apply orb_true_r].
Qed.

End StringFacts.

(** ** The unique-id migration *)

Section Migration.

Variables model_number serial_number : string.

Lemma migrate_marked (e : RegistryEntry) :
  has_marker (unique_id e) = true →
  async_migrate_entity_entry model_number serial_number e = None.
Proof.
  unfold has_marker, async_migrate_entity_entry. intros H.
  apply orb_true_iff in H as [-> | ->]; simpl;
    rewrite ?andb_false_r; simpl; rewrite ?andb_false_r; reflexivity.
Qed.

Lemma migrate_unmarked (e : RegistryEntry) :
  has_marker (unique_id e) = false →
  async_migrate_entity_entry model_number serial_number e =
    if String.eqb (domain e) Platform.UPDATE then
      Some {| new_unique_id :=
                model_number +:+ "_" +:+ serial_number +:+ "_update_status" |}
    else if String.eqb (domain e) Platform.SWITCH
            && PyStr.contains "uc.main" (unique_id e) then None
    else Some {| new_unique_id := model_number +:+ "_" +:+ unique_id e |}.
Proof.
  unfold has_marker, async_migrate_entity_entry. intros H.
  apply orb_false_iff in H as [-> ->]. rewrite !replace_self.
  destruct (String.eqb (domain e) Platform.UPDATE) eqn:Hu; simpl.
  - apply String.eqb_eq in Hu. rewrite Hu. reflexivity.
  - destruct (String.eqb (domain e) Platform.SWITCH); simpl; [|reflexivity].
    destruct (PyStr.contains "uc.main" (unique_id e)); reflexivity.
Qed.

End Migration.

(** C2 (as the code has it): for a registry entry whose unique id holds
    neither marker, the version-1 migration rewrites the id to
    [{model_number}_{original_id}] when the entry is outside the update
    and switch domains, or is a switch whose id does not contain
    ["uc.main"]; an update entry becomes
    [{model_number}_{serial_number}_update_status] and a switch with
    ["uc.main"] is left alone.  In the legacy scenario setup returns,
    the id ["brightness"] has become ["UCR_brightness"] and the entry
    is at version 2. *)
Theorem migration_rewrites_legacy_unique_id :
  (∀ (model_number serial_number : string) (e : RegistryEntry),
     has_marker (unique_id e) = false →
     unique_id (migrate_entry model_number serial_number e) =
       if String.eqb (domain e) Platform.UPDATE
       then model_number +:+ "_" +:+ serial_number +:+ "_update_status"
       else if String.eqb (domain e) Platform.SWITCH
               && PyStr.contains "uc.main" (unique_id e)
       then unique_id e
       else model_number +:+ "_" +:+ unique_id e)
  ∧ (let '(out, w) := async_setup_entry legacy_env legacy_world in
     out = Returned true
     ∧ unique_id <$> entity_registry (state w) = ["UCR_brightness"]
     ∧ version (entry (state w)) = 2).
Proof.
  split.
  - intros m sn e H. unfold migrate_entry.
    rewrite (migrate_unmarked m sn e H).
    destruct (String.eqb (domain e) Platform.UPDATE); [reflexivity|].
    destruct (String.eqb (domain e) Platform.SWITCH
              && PyStr.contains "uc.main" (unique_id e)); reflexivity.
  - vm_compute. repeat split.
Qed.

Lemma migration_rewrites_legacy_unique_id_witness :
  has_marker "brightness" = false
  ∧ unique_id (migrate_entry "UCR" "0001" (example_entity "number" "brightness"))
    = "UCR_brightness".
Proof.
  pose proof migration_rewrites_legacy_unique_id as [H _].
  split; [reflexivity|].
  exact (H "UCR" "0001" (example_entity "number" "brightness") eq_refl).
Defined.

(** C2 as stated fails: an update entry with the legacy, marker-free id
    ["Remote Two_update_status"] is not rewritten to
    [{model_number}_{original_id}]. *)
Lemma migration_update_domain_counterexample :
  has_marker "Remote Two_update_status" = false
  ∧ unique_id (migrate_entry "UCR2" "0001"
                 (example_entity "update" "Remote Two_update_status"))
    = "UCR2_0001_update_status"
  ∧ unique_id (migrate_entry "UCR2" "0001"
                 (example_entity "update" "Remote Two_update_status"))
    ≠ "UCR2" +:+ "_" +:+ "Remote Two_update_status".
Proof.
  split; [vm_compute; reflexivity|].
  split; [vm_compute; reflexivity|].
  vm_compute. discriminate.
Qed.

(** A switch whose id contains ["uc.main"] is left alone as well. *)
Lemma migration_switch_main_unchanged :
  async_migrate_entity_entry "UCR2" "0001"
    (example_entity "switch" "uc.main.activity1") = None.
Proof. vm_compute. reflexivity. Qed.

(** C3 (as the code has it): when the model number itself holds a
    marker, the callback answers [None] on every entry it has migrated,
    so a second pass changes nothing. *)
Theorem migration_idempotent_with_marked_model :
  ∀ (model_number serial_number : string) (e : RegistryEntry),
    has_marker model_number = true →
    async_migrate_entity_entry model_number serial_number
      (migrate_entry model_number serial_number e) = None
    ∧ migrate_entry model_number serial_number
        (migrate_entry model_number serial_number e)
      = migrate_entry model_number serial_number e.
Proof.
  intros m sn e Hm.
  assert (async_migrate_entity_entry m sn (migrate_entry m sn e) = None) as Hnone.
  { unfold migrate_entry.
    destruct (has_marker (unique_id e)) eqn:He.
    - rewrite (migrate_marked m sn e He). cbn [apply_updates].
      by apply migrate_marked.
    - rewrite (migrate_unmarked m sn e He).
      destruct (String.eqb (domain e) Platform.UPDATE).
      + apply migrate_marked. cbn [apply_updates unique_id new_unique_id].
        by apply has_marker_app.
      + destruct (String.eqb (domain e) Platform.SWITCH
                  && PyStr.contains "uc.main" (unique_id e)) eqn:Hsw.
        * cbn [apply_updates].
          rewrite (migrate_unmarked m sn e He).
          apply andb_true_iff in Hsw as [Hs Hc].
          assert (String.eqb (domain e) Platform.UPDATE = false) as ->.
          { apply String.eqb_eq in Hs. rewrite Hs. reflexivity. }
          rewrite Hs, Hc. reflexivity.
        * apply migrate_marked. cbn [apply_updates unique_id new_unique_id].
          by apply has_marker_app. }
  split; [exact Hnone|].
  unfold migrate_entry at 1. rewrite Hnone. reflexivity.
Qed.

Lemma migration_idempotent_with_marked_model_witness :
  has_marker "UCR2" = true
  ∧ migrate_entry "UCR2" "0001"
      (migrate_entry "UCR2" "0001" (example_entity "number" "brightness"))
    = migrate_entry "UCR2" "0001" (example_entity "number" "brightness").
Proof.
  split; [reflexivity|].
  exact (proj2 (migration_idempotent_with_marked_model "UCR2" "0001"
                  (example_entity "number" "brightness") eq_refl)).
Defined.

(** C3 as stated fails: with a model number that holds no marker the
    migrated id is migrated again. *)
Lemma migration_unmarked_model_counterexample :
  unique_id (migrate_entry "X1" "0001" (example_entity "number" "brightness"))
    = "X1_brightness"
  ∧ unique_id (migrate_entry "X1" "0001"
       (migrate_entry "X1" "0001" (example_entity "number" "brightness")))
    = "X1_X1_brightness"
  ∧ migrate_entry "X1" "0001"
       (migrate_entry "X1" "0001" (example_entity "number" "brightness"))
    ≠ migrate_entry "X1" "0001" (example_entity "number" "brightness").
Proof.
  split; [vm_compute; reflexivity|].
  split; [vm_compute; reflexivity|].
  vm_compute. discriminate.
Qed.

(** ** Dock reconciliation *)

Section Reconciliation.
Implicit Types (c : gmap string string) (docks : list (gmap string string)).
Implicit Types (live : list Dock.t) (seen : list string).

Lemma found_in_docks_live live c : found_in_docks c live = id_is_live live c.
Proof.
  unfold id_is_live, live_ids. induction live as [|d rest IH].
  - simpl. destruct (c !! "id"); reflexivity.
  - cbn [found_in_docks]. rewrite IH, fmap_cons.
    destruct (c !! "id") as [i|].
    + destruct (decide (i = Dock.id d)) as [->|Hne].
      * rewrite bool_decide_eq_true_2 by done.
        symmetry. apply bool_decide_eq_true_2. left.
      * rewrite (bool_decide_eq_false_2 (Some i = _)) by congruence.
        apply bool_decide_ext. rewrite elem_of_cons.
        split; [by right|]. intros [?|?]; [congruence|done].
    + by rewrite bool_decide_eq_false_2.
Qed.

Lemma found_in_config_ids (d : Dock.t) docks :
  found_in_config d docks = bool_decide (Dock.id d ∈ persisted_ids docks).
Proof.
  unfold persisted_ids. induction docks as [|c rest IH].
  - reflexivity.
  - cbn [found_in_config omap list_omap]. rewrite IH.
    destruct (c !! "id") as [i|].
    + destruct (decide (i = Dock.id d)) as [->|Hne].
      * rewrite bool_decide_eq_true_2 by done.
        symmetry. apply bool_decide_eq_true_2. left.
      * rewrite (bool_decide_eq_false_2 (Some i = _)) by congruence.
        apply bool_decide_ext. rewrite elem_of_cons.
        split; [by right|]. intros [?|?]; [congruence|done].
    + by rewrite bool_decide_eq_false_2.
Qed.

Lemma list_remove_middle c (kept rest : list (gmap string string)) :
  Forall (fun k => k ≠ c) kept →
  list_remove c (kept ++ c :: rest) = Some (kept ++ rest).
Proof.
  induction 1 as [|k kept Hk _ IH]; simpl.
  - by rewrite bool_decide_eq_true_2.
  - rewrite bool_decide_eq_false_2 by done. by rewrite IH.
Qed.

Lemma remove_vanished_spec live (copy kept : list (gmap string string)) (u : bool) :
  Forall (fun k => id_is_live live k = true) kept →
  remove_vanished live copy (kept ++ copy) u =
    Some (kept ++ kept_records live copy,
          u || negb (forallb (id_is_live live) copy)).
Proof.
  unfold kept_records.
  revert kept u. induction copy as [|c rest IH]; intros kept u Hkept.
  - simpl. by rewrite orb_false_r.
  - cbn [remove_vanished List.filter forallb]. rewrite found_in_docks_live.
    destruct (id_is_live live c) eqn:Hc.
    + replace (kept ++ c :: rest) with ((kept ++ [c]) ++ rest)
        by (by rewrite <- app_assoc).
      rewrite IH.
      * by rewrite <- app_assoc.
      * apply Forall_app. split; [done|]. by constructor.
    + rewrite list_remove_middle.
      * rewrite IH by done. simpl. by rewrite orb_true_r.
      * eapply Forall_impl; [exact Hkept|]. simpl. intros k Hk ->. congruence.
Qed.

Lemma append_new_spec live docks (u : bool) (seen : list string) :
  (∀ d, d ∈ live → Dock.id d ∈ seen ↔ Dock.id d ∈ persisted_ids docks) →
  append_new live docks u =
    (docks ++ (new_dock_record <$> first_per_id seen live),
     u || negb (forallb (fun d => bool_decide (Dock.id d ∈ seen)) live)).
Proof.
  revert docks u seen. induction live as [|d rest IH]; intros docks u seen H.
  - simpl. by rewrite app_nil_r, orb_false_r.
  - cbn [append_new first_per_id forallb]. rewrite found_in_config_ids.
    rewrite <- (bool_decide_ext (Dock.id d ∈ seen) (Dock.id d ∈ persisted_ids docks)
                 (H d ltac:(left))).
    case_bool_decide as Hd.
    + rewrite (IH docks u seen); [done|].
      intros d' Hd'. apply H. by right.
    + rewrite (IH _ true (Dock.id d :: seen)).
      * rewrite fmap_cons. simpl. rewrite <- app_assoc. simpl.
        by rewrite orb_true_r.
      * intros d' Hd'. unfold persisted_ids. rewrite omap_app. simpl.
        unfold new_dock_record at 1. rewrite lookup_insert_eq.
        rewrite elem_of_cons, elem_of_app, list_elem_of_singleton.
        specialize (H d' ltac:(by right)). unfold persisted_ids in H. tauto.
Qed.


Lemma first_per_id_sub seen live (d : Dock.t) :
  d ∈ first_per_id seen live → d ∈ live.
Proof.
  revert seen. induction live as [|d' rest IH]; intros seen; simpl; [done|].
  case_bool_decide.
  - intros H'. right. by eapply IH.
  - rewrite !elem_of_cons. intros [->|H']; [by left|]. right. by eapply IH.
Qed.

Lemma first_per_id_nil seen live :
  (∀ d, d ∈ live → Dock.id d ∈ seen) → first_per_id seen live = [].
Proof.
  induction live as [|d rest IH]; intros H; simpl; [done|].
  rewrite bool_decide_eq_true_2 by (apply H; left).
  apply IH. intros d' Hd'. apply H. by right.
Qed.

Lemma first_per_id_covers seen live (d : Dock.t) :
  d ∈ live → Dock.id d ∈ seen ∨ Dock.id d ∈ live_ids (first_per_id seen live).
Proof.
  unfold live_ids.
  revert seen. induction live as [|d' rest IH]; intros seen; [by rewrite elem_of_nil|].
  rewrite elem_of_cons. simpl. intros Hd. case_bool_decide as Hseen.
  - destruct Hd as [->|Hd]; [by left|]. by apply IH.
  - rewrite fmap_cons, elem_of_cons. destruct Hd as [->|Hd]; [right; by left|].
    destruct (IH (Dock.id d' :: seen) Hd) as [Hin|Hin]; [|right; by right].
    apply elem_of_cons in Hin as [Heq|Hin]; [right; by left | by left].
Qed.

Lemma first_per_id_NoDup seen seen' live :
  NoDup (live_ids live) →
  (∀ d, d ∈ live → Dock.id d ∈ seen' ↔ Dock.id d ∈ seen) →
  first_per_id seen' live =
    List.filter (fun d => negb (bool_decide (Dock.id d ∈ seen))) live.
Proof.
  unfold live_ids. revert seen'.
  induction live as [|d rest IH]; intros seen' Hnd H; [done|].
  rewrite fmap_cons in Hnd. apply NoDup_cons in Hnd as [Hd Hnd].
  cbn [first_per_id List.filter].
  rewrite (bool_decide_ext (Dock.id d ∈ seen') (Dock.id d ∈ seen)
             (H d ltac:(left))).
  case_bool_decide as Hseen; simpl.
  - apply IH; [done|]. intros d' Hd'. apply H. by right.
  - f_equal. apply IH; [done|]. intros d' Hd'.
    rewrite elem_of_cons, (H d' ltac:(by right)).
    split; [|by right]. intros [Heq|?]; [|done].
    exfalso. apply Hd. rewrite <- Heq. by apply list_elem_of_fmap_2.
Qed.

Lemma kept_records_live live docks :
  Forall (fun k => id_is_live live k = true) (kept_records live docks).
Proof.
  apply List.Forall_forall. intros k Hk.
  by apply List.filter_In in Hk as [_ Hk].
Qed.

Lemma kept_records_id live docks :
  Forall (fun k => id_is_live live k = true) docks →
  kept_records live docks = docks.
Proof.
  unfold kept_records. induction 1 as [|k docks Hk _ IH]; simpl; [done|].
  by rewrite Hk, IH.
Qed.

Lemma new_dock_record_live live (d : Dock.t) :
  d ∈ live → id_is_live live (new_dock_record d) = true.
Proof.
  intros Hd. unfold id_is_live, new_dock_record. rewrite lookup_insert_eq.
  apply bool_decide_eq_true_2. by apply list_elem_of_fmap_2.
Qed.

Lemma new_records_live seen live :
  Forall (fun k => id_is_live live k = true)
         (new_dock_record <$> first_per_id seen live).
Proof.
  apply Forall_fmap, Forall_forall. intros d Hd. simpl.
  apply new_dock_record_live. by eapply first_per_id_sub.
Qed.

Lemma persisted_ids_kept live docks (d : Dock.t) :
  d ∈ live →
  Dock.id d ∈ persisted_ids docks ↔
  Dock.id d ∈ persisted_ids (kept_records live docks).
Proof.
  intros Hd. unfold persisted_ids. rewrite !list_elem_of_omap.
  split; intros (c & Hc & Hid); exists c; (split; [|done]).
  - apply list_elem_of_In, List.filter_In. split; [by apply list_elem_of_In|].
    unfold id_is_live. rewrite Hid. apply bool_decide_eq_true_2.
    by apply list_elem_of_fmap_2.
  - by apply list_elem_of_In, List.filter_In in Hc as [Hc%list_elem_of_In _].
Qed.

(** The two loops compute the kept records followed by one fresh record
    per new id, and never raise. *)
Lemma reconcile_docks_spec live docks :
  reconcile_docks live docks =
    Some (kept_records live docks
            ++ (new_dock_record <$> first_per_id (persisted_ids docks) live),
          negb (forallb (id_is_live live) docks)
          || negb (forallb (fun d => bool_decide (Dock.id d ∈ persisted_ids docks))
                           live)).
Proof.
  unfold reconcile_docks.
  pose proof (remove_vanished_spec live docks [] false (List.Forall_nil _)) as H.
  simpl in H. rewrite H.
  by rewrite (append_new_spec live _ _ (persisted_ids docks))
    by (intros d Hd; by apply persisted_ids_kept).
Qed.

End Reconciliation.

(** C1: for every persisted list [P] and live list [L] the two loops
    return (no [ValueError]) the records of [P] whose id is live,
    unchanged and in order, followed by one fresh record
    [{id, name, password: ""}] per live id that is not persisted (for
    the first live dock of that id; with distinct live ids, one per such
    dock); no record of [P] with a vanished id survives; the "changed"
    flag is raised exactly when the list differs from [P]; and a second
    run on the result changes nothing. *)
Theorem dock_reconciliation_is_set_difference
    (P : list (gmap string string)) (L : list Dock.t) :
  ∃ (R : list (gmap string string)) (changed : bool),
    reconcile_docks L P = Some (R, changed)
    ∧ R = kept_records L P
            ++ (new_dock_record <$> first_per_id (persisted_ids P) L)
    ∧ (NoDup (live_ids L) → R = kept_records L P ++ new_records L P)
    ∧ (∀ c, c ∈ P → id_is_live L c = false → c ∉ R)
    ∧ (changed = false ↔ R = P)
    ∧ reconcile_docks L R = Some (R, false).
Proof.
  eexists _, _. split; [apply reconcile_docks_spec|].
  set (K := kept_records L P).
  set (N := new_dock_record <$> first_per_id (persisted_ids P) L).
  assert (Forall (fun k => id_is_live L k = true) (K ++ N)) as Hlive.
  { apply Forall_app. split; [apply kept_records_live | apply new_records_live]. }
  split; [reflexivity|]. split; [|split; [|split]].
  - intros Hnd. unfold N, new_records.
    by rewrite (first_per_id_NoDup (persisted_ids P) (persisted_ids P) L Hnd).
  - intros c _ Hc Hin.
    rewrite Forall_forall in Hlive. specialize (Hlive c Hin). congruence.
  - rewrite orb_false_iff, !negb_false_iff. split.
    + intros [HP HL]. unfold N.
      rewrite first_per_id_nil.
      * rewrite app_nil_r. apply kept_records_id.
        apply List.Forall_forall. by apply forallb_forall.
      * intros d Hd. rewrite forallb_forall in HL.
        eapply bool_decide_eq_true_1, HL. by apply list_elem_of_In.
    + intros HR.
      assert (kept_records L (K ++ N) = K ++ N) as Hfix
        by (by apply kept_records_id).
      rewrite HR in Hfix. fold K in Hfix.
      assert (N = []) as HN.
      { rewrite Hfix in HR. apply (app_inv_head P).
        by rewrite app_nil_r. }
      split.
      * apply forallb_forall. intros c Hc.
        pose proof (kept_records_live L P) as HK. fold K in HK.
        rewrite Hfix in HK. rewrite List.Forall_forall in HK. by apply HK.
      * apply forallb_forall. intros d Hd%list_elem_of_In.
        apply bool_decide_eq_true_2.
        destruct (first_per_id_covers (persisted_ids P) L d Hd) as [?|Hin];
          [done|].
        exfalso. unfold N in HN. apply fmap_nil_inv in HN.
        rewrite HN in Hin. by apply elem_of_nil in Hin.
  - rewrite reconcile_docks_spec.
    rewrite (kept_records_id L (K ++ N) Hlive).
    assert (∀ d, d ∈ L → Dock.id d ∈ persisted_ids (K ++ N)) as Hcov.
    { intros d Hd. unfold persisted_ids. rewrite omap_app, elem_of_app.
      destruct (first_per_id_covers (persisted_ids P) L d Hd) as [Hin|Hin].
      - left. by apply (persisted_ids_kept L P d Hd).
      - right. unfold N. apply list_elem_of_omap.
        apply list_elem_of_fmap in Hin as (d' & -> & Hd').
        exists (new_dock_record d'). split; [by apply list_elem_of_fmap_2|].
        unfold new_dock_record. by rewrite lookup_insert_eq. }
    rewrite (first_per_id_nil _ L Hcov), app_nil_r.
    do 2 f_equal. apply orb_false_iff. rewrite !negb_false_iff. split.
    + apply forallb_forall. intros c Hc%list_elem_of_In.
      rewrite Forall_forall in Hlive. by apply Hlive.
    + apply forallb_forall. intros d Hd%list_elem_of_In.
      apply bool_decide_eq_true_2. by apply Hcov.
Qed.

Lemma dock_reconciliation_is_set_difference_witness :
  NoDup (live_ids scenario_live)
  ∧ ∃ (R : list (gmap string string)) (changed : bool),
      reconcile_docks scenario_live scenario_persisted = Some (R, changed)
      ∧ R = kept_records scenario_live scenario_persisted
              ++ new_records scenario_live scenario_persisted.
Proof.
  assert (NoDup (live_ids scenario_live)) as Hnd.
  { apply (bool_decide_unpack _). vm_compute. exact I. }
  split; [exact Hnd|].
  destruct (dock_reconciliation_is_set_difference scenario_persisted scenario_live)
    as (R & changed & Hrun & _ & Hnodup & _).
  exists R, changed. split; [exact Hrun | exact (Hnodup Hnd)].
Defined.

(** The scenario of the specification: persisted docks 1 and 2, live
    docks 2 and 3. *)
Lemma dock_reconciliation_scenario :
  reconcile_docks scenario_live scenario_persisted =
    Some ([dock_record "2" "Dock Two" "secret2"; dock_record "3" "Dock Three" ""],
          true).
Proof. by_evaluation. Qed.

(** Two live docks that share an id get one record, named after the
    first. *)
Lemma dock_reconciliation_duplicate_live_ids :
  reconcile_docks [example_dock "3" "Dock Three"; example_dock "3" "Other"] [] =
    Some ([dock_record "3" "Dock Three" ""], true).
Proof. by_evaluation. Qed.

(** On the entry: the reconciled list replaces [entry.data["docks"]],
    and the host is asked to persist exactly when something changed. *)
Lemma synchronize_docks_stores (env : Env) (w : World Hass)
    (remote_api : Remote.t) (P : list (gmap string string)) :
  data_docks (data (entry (state w))) = Some P →
  ∃ (R : list (gmap string string)) (changed : bool),
    reconcile_docks (Remote.docks remote_api) P = Some (R, changed)
    ∧ data_docks (data (entry (state (snd (synchronize_docks env remote_api w)))))
      = Some R
    ∧ calls (snd (synchronize_docks env remote_api w))
      = calls w ++ (if changed then [async_update_entry] else []).
Proof.
  intros HP. eexists _, _. split; [apply reconcile_docks_spec|].
  destruct w as [cs ls h]. cbn [state calls] in *.
  unfold synchronize_docks, bind, get, subscript. cbn [state calls logs].
  rewrite HP. unfold ret. rewrite reconcile_docks_spec.
  unfold modify, extcall. cbn [state calls logs].
  destruct (_ || _); cbn [state calls logs].
  - destruct (raises env cs async_update_entry); cbn; split; reflexivity.
  - cbn. by rewrite app_nil_r.
Qed.

(** ** Entities *)

Lemma remote_number_unique_id (coordinator : UnfoldedCircleRemoteCoordinator.t)
    (description : UnfoldedCircleNumberEntityDescription RemoteControlFn) :
  UCRemoteNumber._attr_unique_id (UCRemoteNumber.__init__ coordinator description) =
    Remote.model_number (UnfoldedCircleRemoteCoordinator.api coordinator) +:+ "_"
    +:+ Remote.serial_number (UnfoldedCircleRemoteCoordinator.api coordinator) +:+ "_"
    +:+ unique_id_ description.
Proof. reflexivity. Qed.

Lemma dock_number_unique_id (coordinator : UnfoldedCircleDockCoordinator.t)
    (description : UnfoldedCircleNumberEntityDescription DockControlFn) :
  UCDockNumber._attr_unique_id (UCDockNumber.__init__ coordinator description) =
    Dock.model_number (UnfoldedCircleDockCoordinator.api coordinator) +:+ "_"
    +:+ Dock.serial_number (UnfoldedCircleDockCoordinator.api coordinator) +:+ "_"
    +:+ unique_id_ description.
Proof. reflexivity. Qed.

Lemma update_unique_id (coordinator : UnfoldedCircleRemoteCoordinator.t) :
  Update._attr_unique_id (Update.__init__ coordinator) =
    Remote.name (UnfoldedCircleRemoteCoordinator.api coordinator) +:+ "_update_status".
Proof. reflexivity. Qed.

(** C4 (the code departs from the claim): the firmware entity built by
    [Update.__init__] for a remote named "Remote Two" (model "UCR2",
    serial "0001") has unique id ["Remote Two_update_status"], not
    [{model_number}_{serial_number}_update_status], the id to which the
    migration callback of the same integration rewrites that very
    entry. *)
Theorem update_entity_unique_id_lacks_model_and_serial :
  Update._attr_unique_id (Update.__init__ example_coordinator)
    = "Remote Two_update_status"
  ∧ Update._attr_unique_id (Update.__init__ example_coordinator)
    ≠ Remote.model_number (UnfoldedCircleRemoteCoordinator.api example_coordinator)
      +:+ "_"
      +:+ Remote.serial_number (UnfoldedCircleRemoteCoordinator.api example_coordinator)
      +:+ "_update_status"
  ∧ new_unique_id <$>
      async_migrate_entity_entry "UCR2" "0001"
        (example_entity "update" "Remote Two_update_status")
    = Some "UCR2_0001_update_status".
Proof.
  split; [vm_compute; reflexivity|].
  split; [vm_compute; discriminate|].
  vm_compute; reflexivity.
Qed.

(** C7: on a coordinator update of the firmware entity, an installation
    at 0 % sets the indicator to the string ["0"], an installation at
    another percentage sets it to that percentage (the version fields
    stay), and no installation sets it to [False] and copies the
    installed and latest versions from the device; the state is written
    once. *)
Theorem update_entity_progress_indicator (env : Env) (w : World Update.t) :
  let api := Update.api (state w) in
  let w' := snd (Update._handle_coordinator_update env w) in
  (Remote.update_in_progress api = true → Remote.update_percent api = 0 →
     Update._attr_in_progress (state w') = InProgressStr "0")
  ∧ (Remote.update_in_progress api = true → Remote.update_percent api ≠ 0 →
     Update._attr_in_progress (state w') = InProgressInt (Remote.update_percent api))
  ∧ (Remote.update_in_progress api = true →
     Update._attr_installed_version (state w') = Update._attr_installed_version (state w)
     ∧ Update._attr_latest_version (state w') = Update._attr_latest_version (state w))
  ∧ (Remote.update_in_progress api = false →
     Update._attr_in_progress (state w') = InProgressBool false
     ∧ Update._attr_installed_version (state w') = Remote.sw_version api
     ∧ Update._attr_latest_version (state w') = Remote.latest_sw_version api)
  ∧ calls w' = calls w ++ [async_write_ha_state].
Proof.
  destruct w as [cs ls self]. cbn [state calls].
  unfold Update._handle_coordinator_update, bind, get, modify, extcall.
  cbn [state calls logs fst snd].
  destruct (Remote.update_in_progress (Update.api self)) eqn:Hp.
  - destruct (Z.eqb_spec (Remote.update_percent (Update.api self)) 0) as [H0|H0].
    + cbn [state calls logs fst snd].
      destruct (raises env cs async_write_ha_state); cbn; repeat split; try done.
    + cbn [state calls logs fst snd].
      destruct (raises env cs async_write_ha_state); cbn; repeat split; try done.
  - cbn [state calls logs fst snd].
    destruct (raises env cs async_write_ha_state); cbn; repeat split; try done.
Qed.

Lemma update_entity_progress_indicator_witness :
  Remote.update_in_progress (Update.api (state installing_world)) = true
  ∧ Remote.update_percent (Update.api (state installing_world)) = 0
  ∧ Update._attr_in_progress
      (state (snd (Update._handle_coordinator_update quiet_env installing_world)))
    = InProgressStr "0".
Proof.
  split; [reflexivity|]. split; [reflexivity|].
  exact (proj1 (update_entity_progress_indicator quiet_env installing_world)
               eq_refl eq_refl).
Defined.



(** A dock setter sends [str(int(value))]; [int] truncates towards zero. *)
Lemma dock_number_set_value_example :
  UCDockNumber.async_set_native_value quiet_env (-(5 # 2)) led_world
  = (Returned tt,
     {| calls := [dock_send_command "2" "SET_LED_BRIGHTNESS" "-2";
                  async_request_refresh (Some "2")];
        logs := []; state := state led_world |}).
Proof. by_evaluation. Qed.

(** ** Reasoning about monadic code *)

Section Logic.
Context {S : Type}.

Lemma raises_only_ret {A} E (a : A) : raises_only E (@ret S A a).
Proof. intros w e w' H. discriminate. Qed.

Lemma raises_only_raise {A} (E : exn → Prop) e :
  E e → raises_only E (@raise S A e).
Proof. intros He w e' w' [= <- _]. exact He. Qed.

Lemma raises_only_get E : raises_only E (@get S).
Proof. intros w e w' H. discriminate. Qed.

Lemma raises_only_modify E (f : S → S) : raises_only E (modify f).
Proof. intros w e w' H. discriminate. Qed.

Lemma raises_only_emit E r : raises_only E (@emit S r).
Proof. intros w e w' H. discriminate. Qed.

Lemma raises_only_log E l f a : raises_only E (@log S l f a).
Proof. apply raises_only_emit. Qed.

Lemma raises_only_subscript {A} (E : exn → Prop) key (v : option A) :
  E (KeyError key) → raises_only E (@subscript S A key v).
Proof.
  intros He. destruct v; [apply raises_only_ret | by apply raises_only_raise].
Qed.

Lemma raises_only_bind {A B} E (m : M S A) (k : A → M S B) :
  raises_only E m → (∀ a, raises_only E (k a)) → raises_only E (bind m k).
Proof.
  intros Hm Hk w e w'. unfold bind.
  destruct (m w) as [[a|e0] w1] eqn:Hmw.
  - apply Hk.
  - intros [= <- <-]. by eapply Hm.
Qed.

Lemma raises_only_extcall env (E : exn → Prop) c :
  (∀ hist e, raises env hist c = Some e → E e) →
  raises_only E (@extcall env S c).
Proof.
  intros H w e w'. unfold extcall.
  destruct (raises env (calls w) c) as [e0|] eqn:Hr; [|discriminate].
  intros [= <- _]. by eapply H.
Qed.

Lemma raises_only_try_except {A} (E0 E : exn → Prop) (body : M S A) clauses :
  raises_only E0 body →
  (∀ e, E0 e → match select_handler clauses e with
               | Some handler => raises_only E handler
               | None => E e
               end) →
  raises_only E (try_except body clauses).
Proof.
  intros Hb Hc w e w'. unfold try_except.
  destruct (body w) as [[a|e0] w1] eqn:Hbw; [discriminate|].
  specialize (Hc e0 (Hb _ _ _ Hbw)).
  destruct (select_handler clauses e0) as [h|].
  - apply Hc.
  - by intros [= <- _].
Qed.

Lemma raises_only_for_each {A} E (l : list A) (body : A → M S unit) :
  (∀ x, raises_only E (body x)) → raises_only E (for_each l body).
Proof.
  intros H. induction l as [|x l IH]; simpl.
  - apply raises_only_ret.
  - apply raises_only_bind; [apply H | intros _; exact IH].
Qed.

Lemma raises_only_coroutine {A} (E : exn → Prop) (m : M S A) :
  raises_only E m → raises_only (fun e' => ∃ e, E e ∧ e' = pep479 e) (coroutine m).
Proof.
  intros Hm w e' w'. unfold coroutine.
  destruct (m w) as [[a|e] w1] eqn:Hmw; [discriminate|].
  intros [= <- _]. exists e. split; [by eapply Hm | reflexivity].
Qed.

Lemma raises_only_weaken {A} (E E' : exn → Prop) (m : M S A) :
  (∀ e, E e → E' e) → raises_only E m → raises_only E' m.
Proof. intros H Hm w e w' Hw. apply H. by eapply Hm. Qed.

(** A computation that cannot raise returns. *)
Lemma never_raises_returns {A} (m : M S A) w :
  raises_only (fun _ => False) m → ∃ a w', m w = (Returned a, w').
Proof.
  intros H. destruct (m w) as [[a|e] w'] eqn:Hm; [by eauto|].
  destruct (H _ _ _ Hm).
Qed.

Lemma keeps_ret {A B} (f : S → B) (a : A) : keeps f (ret a).
Proof. intros w. reflexivity. Qed.

Lemma keeps_raise {A B} (f : S → B) e : keeps f (@raise S A e).
Proof. intros w. reflexivity. Qed.

Lemma keeps_get {B} (f : S → B) : keeps f get.
Proof. intros w. reflexivity. Qed.

Lemma keeps_emit {B} (f : S → B) r : keeps f (emit r).
Proof. intros w. reflexivity. Qed.

Lemma keeps_log {B} (f : S → B) l fmt a : keeps f (log l fmt a).
Proof. intros w. reflexivity. Qed.

Lemma keeps_modify {B} (f : S → B) (g : S → S) :
  (∀ s, f (g s) = f s) → keeps f (modify g).
Proof. intros H w. apply H. Qed.

Lemma keeps_subscript {A B} (f : S → B) key (v : option A) :
  keeps f (subscript key v).
Proof. destruct v; intros w; reflexivity. Qed.

Lemma keeps_extcall env {B} (f : S → B) c : keeps f (extcall env c).
Proof. intros w. unfold extcall. by destruct (raises env (calls w) c). Qed.

Lemma keeps_bind {A B C} (f : S → C) (m : M S A) (k : A → M S B) :
  keeps f m → (∀ a, keeps f (k a)) → keeps f (bind m k).
Proof.
  intros Hm Hk w. unfold bind. specialize (Hm w).
  destruct (m w) as [[a|e] w1]; simpl in *; [|exact Hm].
  by rewrite Hk.
Qed.

Lemma keeps_try_except {A B} (f : S → B) (body : M S A) clauses :
  keeps f body →
  Forall (fun clause => ∀ e, keeps f (snd clause e)) clauses →
  keeps f (try_except body clauses).
Proof.
  intros Hb Hc w. unfold try_except. specialize (Hb w).
  destruct (body w) as [[a|e] w1]; simpl in *; [exact Hb|].
  assert (∀ h, select_handler clauses e = Some h → keeps f h) as Hsel.
  { clear -Hc. induction Hc as [|[cls h'] rest Hh _ IH]; simpl; [done|].
    destruct (isinstance e cls); [|exact IH]. intros h [= <-]. apply Hh. }
  destruct (select_handler clauses e) as [h|]; simpl; [|exact Hb].
  by rewrite (Hsel h eq_refl).
Qed.

Lemma keeps_for_each {A B} (f : S → B) (l : list A) (body : A → M S unit) :
  (∀ x, keeps f (body x)) → keeps f (for_each l body).
Proof.
  intros H. induction l as [|x l IH]; simpl.
  - apply keeps_ret.
  - apply keeps_bind; [apply H | intros _; exact IH].
Qed.

Lemma keeps_coroutine {A B} (f : S → B) (m : M S A) :
  keeps f m → keeps f (coroutine m).
Proof.
  intros Hm w. unfold coroutine. specialize (Hm w).
  by destruct (m w) as [[a|e] w1].
Qed.

End Logic.

Create HintDb keeps.
#[local] Hint Resolve keeps_ret keeps_raise keeps_get keeps_emit keeps_log
  keeps_subscript keeps_extcall keeps_for_each keeps_coroutine : keeps.

(** Decomposes a [keeps] goal along the structure of the code. *)
Ltac keeps_step :=
  lazymatch goal with
  | |- keeps _ (bind _ _) => apply keeps_bind; [|intros ?]
  | |- keeps _ (try_except _ _) =>
      apply keeps_try_except; [|repeat constructor; intros ?; cbn [snd]]
  | |- keeps _ (for_each _ _) => apply keeps_for_each; intros ?
  | |- keeps _ (coroutine _) => apply keeps_coroutine
  | |- keeps _ (modify _) => apply keeps_modify; intros ?; reflexivity
  | |- keeps _ (if ?c then _ else _) => destruct c
  | |- keeps _ (match ?x with _ => _ end) => destruct x
  | |- keeps _ _ => solve [auto with keeps]
  end.

Section Frame.
Variable env : Env.

Lemma setup_docks_keeps_data docks seen dcs :
  keeps hass_data (setup_docks env docks seen dcs).
Proof.
  revert seen dcs. induction docks as [|d rest IH]; intros seen dcs; simpl.
  - apply keeps_ret.
  - apply keeps_bind; [|intros [d' dcs']; apply IH].
    unfold setup_dock. repeat keeps_step.
Qed.

Lemma setup_keeps_hass_data : keeps hass_data (async_setup_entry env).
Proof.
  unfold async_setup_entry, connect, new_remote, wire_runtime_data,
    finish_setup, migrate_version_1, synchronize_docks, async_migrate_entries,
    _migrate_device_identifiers, _update_config_entry.
  repeat first [ apply setup_docks_keeps_data | keeps_step
               | progress unfold migrate_device ].
Qed.
End Frame.

Section Bind.
Context {S : Type}.

Lemma bind_returned {A B} (m : M S A) (k : A → M S B) w b w' :
  bind m k w = (Returned b, w') →
  ∃ a w1, m w = (Returned a, w1) ∧ k a w1 = (Returned b, w').
Proof.
  unfold bind. destruct (m w) as [[a|e] w1]; [eauto | discriminate].
Qed.

Lemma bind_run {A B} (m : M S A) (k : A → M S B) w a w1 :
  m w = (Returned a, w1) → bind m k w = k a w1.
Proof. unfold bind. by intros ->. Qed.

Lemma bind_run_raised {A B} (m : M S A) (k : A → M S B) w e w1 :
  m w = (Raised e, w1) → bind m k w = (Raised e, w1).
Proof. unfold bind. by intros ->. Qed.

End Bind.

(** ** Unload and removal *)

Section Teardown.
Variable env : Env.
Hypothesis Hexc : only_exceptions env.

Lemma extcall_raises_exceptions {S} c : raises_only is_exception (@extcall env S c).
Proof. apply raises_only_extcall. intros hist e. apply Hexc. Qed.

Lemma unload_body_raises_exceptions : raises_only is_exception (unload_body env).
Proof.
  unfold unload_body, get_runtime_data.
  apply raises_only_bind; [|intros r].
  - apply raises_only_bind; [apply raises_only_get | intros h].
    destruct (runtime_data (entry h));
      [apply raises_only_ret | by apply raises_only_raise].
  - apply raises_only_bind; [apply extcall_raises_exceptions | intros _].
    apply raises_only_for_each. intros d. unfold delete_dock_issue.
    apply raises_only_bind; [apply extcall_raises_exceptions | intros _].
    apply raises_only_modify.
Qed.

Lemma remove_body_raises_exceptions : raises_only is_exception (remove_body env).
Proof.
  unfold remove_body.
  apply raises_only_bind; [apply raises_only_get | intros h].
  apply raises_only_bind; [apply raises_only_log | intros _].
  do 3 (apply raises_only_bind;
        [by apply raises_only_subscript | intros ?]).
  apply raises_only_bind; [apply extcall_raises_exceptions | intros _].
  apply (raises_only_try_except is_exception).
  - apply raises_only_bind; [apply extcall_raises_exceptions | intros _].
    apply raises_only_log.
  - intros e He. cbn [select_handler].
    destruct (isinstance e "ConnectionError"); [apply raises_only_log | exact He].
Qed.

(** A [try] whose only clause is [except Exception] that logs returns,
    when its body raises nothing but [Exception]s. *)
Lemma guarded_returns (body : M Hass unit) (record : exn → LogRecord) w :
  raises_only is_exception body →
  fst (try_except body [("Exception", fun ex => emit (record ex))] w) = Returned tt
  ∧ ∀ e w1, body w = (Raised e, w1) →
      logs (snd (try_except body [("Exception", fun ex => emit (record ex))] w))
      = logs w1 ++ [record e].
Proof.
  intros Hbody. unfold try_except.
  destruct (body w) as [[[]|e] w1] eqn:Hb.
  - split; [reflexivity | discriminate].
  - cbn [select_handler]. rewrite (Hbody _ _ _ Hb). cbn.
    split; [reflexivity|]. by intros e' w1' [= <- <-].
Qed.

End Teardown.

(** C9 (as the code has it): when the environment raises nothing but
    [Exception]s, removal returns, and what its body raised is logged;
    the guarded block of unload (closing the websocket, deleting the
    dock issues) returns as well, with its exception logged; unload then
    ends as the teardown of the platforms ends: with [unload_ok], or
    with the exception that teardown raised. *)
Theorem unload_and_removal_swallow_exceptions (env : Env) (w : World Hass) :
  only_exceptions env →
  (fst (async_remove_entry env w) = Returned tt
   ∧ ∀ e w1, remove_body env w = (Raised e, w1) →
       logs (snd (async_remove_entry env w)) = logs w1 ++ [remove_error e])
  ∧ (fst (unload_guarded env w) = Returned tt
     ∧ ∀ e w1, unload_body env w = (Raised e, w1) →
         logs (snd (unload_guarded env w)) = logs w1 ++ [unload_error e])
  ∧ fst (async_unload_entry env w) =
      match raises env (calls (snd (unload_guarded env w)))
                   (async_unload_platforms PLATFORMS) with
      | None => Returned (unload_ok env)
      | Some e => Raised (pep479 e)
      end.
Proof.
  intros Hexc.
  pose proof (guarded_returns (remove_body env) remove_error w
                (remove_body_raises_exceptions env Hexc)) as [Hr Hrl].
  pose proof (guarded_returns (unload_body env) unload_error w
                (unload_body_raises_exceptions env Hexc)) as [Hu Hul].
  fold (unload_guarded env) in Hu, Hul.
  split; [|split].
  - unfold async_remove_entry, coroutine.
    destruct (try_except _ _ w) as [[[]|e] w1]; cbn [fst snd] in *.
    + split; [reflexivity | exact Hrl].
    + discriminate Hr.
  - split; [exact Hu | exact Hul].
  - unfold async_unload_entry, coroutine, bind. fold (unload_guarded env).
    destruct (unload_guarded env w) as [[[]|e] w1]; cbn [fst snd] in *;
      [|discriminate Hu].
    unfold extcall.
    destruct (raises env (calls w1) _); reflexivity.
Qed.

Lemma example_env_only_exceptions device failing e :
  isinstance e "Exception" = true →
  only_exceptions (example_env device failing e).
Proof.
  intros He hist c e'. cbn [raises example_env].
  case_bool_decide; [|discriminate]. by intros [= <-].
Qed.

Lemma unload_and_removal_swallow_exceptions_witness :
  only_exceptions unreachable_env
  ∧ fst (async_remove_entry unreachable_env loaded_world) = Returned tt
  ∧ fst (async_unload_entry unreachable_env loaded_world) = Returned true.
Proof.
  assert (only_exceptions unreachable_env) as Hexc
    by (by apply example_env_only_exceptions).
  destruct (unload_and_removal_swallow_exceptions unreachable_env loaded_world Hexc)
    as ((Hremove & _) & _ & Hunload).
  split; [exact Hexc|]. split; [exact Hremove|].
  rewrite Hunload. reflexivity.
Defined.

(** What the two guarded blocks log when the device is gone. *)
Lemma teardown_logs_example :
  logs (snd (async_remove_entry unreachable_env
               {| calls := []; logs := []; state := state loaded_world |}))
  = [{| log_level := "debug";
        log_format := "Removing remote from Home assistant for entry %s";
        log_args := ["entry1"] |};
     {| log_level := "error";
        log_format :=
          "Remote is unavailable, the HA token cannot be checked and won't be removed";
        log_args := [] |}]
  ∧ logs (snd (async_unload_entry unreachable_env
               {| calls := []; logs := []; state := state loaded_world |}))
  = [unload_error (ConnectionError "unreachable")].
Proof. split; by_evaluation. Qed.

(** C9 as stated fails: an exception raised while the platforms are torn
    down leaves [async_unload_entry]. *)
Lemma unload_platforms_counterexample :
  isinstance (ValueError "Config entry was never loaded!") "Exception" = true
  ∧ fst (async_unload_entry stuck_platforms_env loaded_world)
    = Raised (ValueError "Config entry was never loaded!").
Proof. split; by_evaluation. Qed.

(** ** Setup *)

Section Setup.
Variable env : Env.

Lemma translated_exceptions_pass (e : exn) :
  pep479 (ConfigEntryAuthFailed e) = ConfigEntryAuthFailed e
  ∧ pep479 (ConfigEntryNotReady e) = ConfigEntryNotReady e.
Proof. split; reflexivity. Qed.


Lemma connect_returns (w w1 : World Hass) (remote_api : Remote.t) :
  new_remote env w = (Returned remote_api, w1) →
  connect env w = (Returned remote_api, w1).
Proof. intros H. unfold connect, try_except. by rewrite H. Qed.

Lemma finish_setup_returns_true remote_api w b w' :
  finish_setup env remote_api w = (Returned b, w') → b = true.
Proof.
  unfold finish_setup. intros H.
  repeat (apply bind_returned in H as (? & ? & _ & H)).
  by injection H as <- _.
Qed.

Lemma finish_setup_keeps_runtime_data remote_api :
  keeps (fun h => runtime_data (entry h)) (finish_setup env remote_api).
Proof. unfold finish_setup. repeat keeps_step. Qed.

Lemma wire_runtime_data_stores remote_api w rd w' :
  wire_runtime_data env remote_api w = (Returned rd, w') →
  runtime_data (entry (state w')) = Some rd
  ∧ UnfoldedCircleRemoteCoordinator.api (coordinator rd) = remote rd.
Proof.
  unfold wire_runtime_data. intros H.
  do 4 (apply bind_returned in H as (? & ? & _ & H)).
  apply bind_returned in H as ([docks dcs] & w5 & _ & H).
  apply bind_returned in H as (? & ? & Hm & H).
  injection H as <- <-. injection Hm as _ <-. split; reflexivity.
Qed.

End Setup.


Section Unguarded.
Variable env : Env.








End Unguarded.

(** A setup that returns has stored its [RuntimeData] and returns
    [True]. *)
Lemma setup_returns_runtime_data (env : Env) (w : World Hass) (b : bool) :
  fst (async_setup_entry env w) = Returned b →
  b = true
  ∧ ∃ rd, runtime_data (entry (state (snd (async_setup_entry env w)))) = Some rd
          ∧ UnfoldedCircleRemoteCoordinator.api (coordinator rd) = remote rd.
Proof.
  unfold async_setup_entry, coroutine. intros Hout.
  destruct (bind (connect env) _ w) as [[b'|e] w2] eqn:Hrun;
    cbn [fst snd] in *; [|discriminate].
  injection Hout as ->.
  apply bind_returned in Hrun as (remote_api & w1 & _ & Hrun).
  apply bind_returned in Hrun as (rd & w3 & Hwire & Hfin).
  apply wire_runtime_data_stores in Hwire as [Hstored Hapi].
  split; [by eapply finish_setup_returns_true|].
  exists rd. split; [|exact Hapi].
  pose proof (finish_setup_keeps_runtime_data env (remote rd) w3) as Hk.
  rewrite Hfin in Hk. cbn [snd] in Hk. by rewrite Hk.
Qed.




(** ** Dock coordinators *)

Section Docks.
Variable env : Env.

(** One pass of the loop body, unfolded along the answers of the
    environment. *)
Lemma setup_dock_run (w : World Hass) dock dcs config_docks :
  data_docks (data (entry (state w))) = Some config_docks →
  let dock' := assign_password config_docks dock in
  let id := Dock.id dock' in
  let world cs ls := {| calls := calls w ++ cs; logs := logs w ++ ls;
                        state := state w |} in
  let swallowed e cs :=
    if isinstance e "Exception"
    then (Returned (dock', dcs), world cs [dock_error dock' e])
    else (Raised e, world cs []) in
  setup_dock env dock dcs w =
    if Dock.has_password dock' then
      match raises env (calls w) (DockCoordinator_new id) with
      | Some e => (Raised e, world [DockCoordinator_new id] [])
      | None =>
          match raises env (calls w ++ [DockCoordinator_new id])
                       (dock_api_update id) with
          | Some e => swallowed e [DockCoordinator_new id; dock_api_update id]
          | None =>
              match raises env (calls w ++ [DockCoordinator_new id; dock_api_update id])
                           (dock_first_refresh id) with
              | Some e =>
                  swallowed e [DockCoordinator_new id; dock_api_update id;
                               dock_first_refresh id]
              | None =>
                  (Returned (dock', dcs ++ [new_dock_coordinator env dock']),
                   world [DockCoordinator_new id; dock_api_update id;
                          dock_first_refresh id] [])
              end
          end
      end
    else
      let issue := async_create_issue (DOMAIN (const env)) ("dock_password_" +:+ id) in
      let debug :=
        {| log_level := "debug";
           log_format := "Empty dock password %s (%s) for remote %s";
           log_args := [Dock.name dock'; id; title (entry (state w))] |} in
      match raises env (calls w) issue with
      | Some e => (Raised e, world [issue] [debug])
      | None =>
          (Returned (dock', dcs),
           {| calls := calls w ++ [issue]; logs := logs w ++ [debug];
              state := set_issues
                (insert (DOMAIN (const env), "dock_password_" +:+ id)
                        (dock_password_issue dock')) (state w) |})
      end.
Proof.
  intros Hdocks. cbv zeta. destruct w as [cs ls h]. cbn [state calls logs] in *.
  unfold setup_dock, bind, get, subscript. cbn [state calls logs].
  rewrite Hdocks. unfold ret at 1. cbn [state calls logs].
  destruct (Dock.has_password (assign_password config_docks dock)).
  - unfold extcall at 1. cbn [state calls logs].
    destruct (raises env cs _) as [e|]; [by rewrite app_nil_r|].
    unfold try_except, bind, extcall, emit, ret. cbn [state calls logs].
    destruct (raises env (cs ++ _) (dock_api_update _)) as [e|].
    + cbn [select_handler].
      destruct (isinstance e "Exception"); cbn; rewrite <- ?app_assoc, ?app_nil_r;
        reflexivity.
    + rewrite <- !app_assoc. cbn [app].
      destruct (raises env _ (dock_first_refresh _)) as [e|].
      * cbn [select_handler].
        destruct (isinstance e "Exception"); cbn; rewrite <- ?app_assoc, ?app_nil_r;
          reflexivity.
      * cbn. rewrite <- ?app_assoc, ?app_nil_r. reflexivity.
  - unfold log, emit, extcall, modify, ret. cbn [state calls logs].
    destruct (raises env cs _); reflexivity.
Qed.

Lemma assign_password_id config_docks dock :
  Dock.id (assign_password config_docks dock) = Dock.id dock.
Proof. unfold assign_password. by destruct (find_password _ _). Qed.

Hypothesis Hexc : only_exceptions env.
Hypothesis Hnew : ∀ hist id, raises env hist (DockCoordinator_new id) = None.
Hypothesis Hissue : ∀ hist d i, raises env hist (async_create_issue d i) = None.

(** With coordinators that can be built and issues that can be filed,
    one pass of the loop body returns, whatever the dock answers. *)
Lemma setup_dock_returns (w : World Hass) dock dcs config_docks :
  data_docks (data (entry (state w))) = Some config_docks →
  let dock' := assign_password config_docks dock in
  ∃ dcs' w',
    setup_dock env dock dcs w = (Returned (dock', dcs'), w')
    ∧ data_docks (data (entry (state w'))) = Some config_docks
    ∧ (dcs' = dcs
       ∨ Dock.has_password dock' = true
         ∧ dcs' = dcs ++ [new_dock_coordinator env dock'])
    ∧ (Dock.has_password dock' = false →
       dcs' = dcs
       ∧ issues (state w')
           !! (DOMAIN (const env), "dock_password_" +:+ Dock.id dock')
         = Some (dock_password_issue dock'))
    ∧ (∀ k, is_Some (issues (state w) !! k) → is_Some (issues (state w') !! k)).
Proof.
  intros Hdocks dock'. rewrite (setup_dock_run w dock dcs config_docks Hdocks).
  cbv zeta. fold dock'. destruct (Dock.has_password dock') eqn:Hpw.
  - rewrite Hnew.
    destruct (raises env _ (dock_api_update _)) as [e|] eqn:Hu.
    { rewrite (Hexc _ _ _ Hu). eexists _, _. split; [reflexivity|].
      cbn [state]. split; [done|]. split; [by left|].
      split; [intros; congruence | done]. }
    destruct (raises env _ (dock_first_refresh _)) as [e|] eqn:Hr.
    { rewrite (Hexc _ _ _ Hr). eexists _, _. split; [reflexivity|].
      cbn [state]. split; [done|]. split; [by left|].
      split; [intros; congruence | done]. }
    eexists _, _. split; [reflexivity|].
    cbn [state]. split; [done|]. split; [by right|].
    split; [intros; congruence | done].
  - rewrite Hissue. eexists _, _. split; [reflexivity|].
    cbn [state set_issues issues entry]. split; [done|]. split; [by left|].
    split; [intros _; split; [done|apply lookup_insert_eq]|].
    intros k Hk. destruct (decide ((DOMAIN (const env),
      "dock_password_" +:+ Dock.id dock') = k)) as [<-|Hne].
    + rewrite lookup_insert_eq. eauto.
    + by rewrite lookup_insert_ne.
Qed.

(** The loop visits every dock and returns. *)
Lemma setup_docks_returns (w : World Hass) docks seen dcs config_docks :
  data_docks (data (entry (state w))) = Some config_docks →
  ∃ dcs' w',
    setup_docks env docks seen dcs w
      = (Returned (seen ++ (assign_password config_docks <$> docks), dcs'), w')
    ∧ (∀ dc, dc ∈ dcs' →
         dc ∈ dcs
         ∨ ∃ d, d ∈ docks
                ∧ Dock.has_password (assign_password config_docks d) = true
                ∧ dc = new_dock_coordinator env (assign_password config_docks d))
    ∧ (∀ d, d ∈ docks →
         Dock.has_password (assign_password config_docks d) = false →
         is_Some (issues (state w')
                    !! (DOMAIN (const env), "dock_password_" +:+ Dock.id d)))
    ∧ (∀ k, is_Some (issues (state w) !! k) → is_Some (issues (state w') !! k)).
Proof.
  revert w seen dcs. induction docks as [|d rest IH]; intros w seen dcs Hdocks.
  - exists dcs, w. simpl. rewrite app_nil_r.
    split; [reflexivity|]. split; [by left|]. split; [|done].
    intros d Hd. by apply elem_of_nil in Hd.
  - destruct (setup_dock_returns w d dcs config_docks Hdocks)
      as (dcs1 & w1 & Hrun & Hdocks1 & Hdcs1 & Hiss1 & Hmono1).
    destruct (IH w1 (seen ++ [assign_password config_docks d]) dcs1 Hdocks1)
      as (dcs' & w' & Hrest & Hdcs' & Hiss' & Hmono').
    exists dcs', w'. split; [|split; [|split]].
    + cbn [setup_docks]. rewrite (bind_run _ _ _ _ _ Hrun). cbn beta iota.
      rewrite Hrest, fmap_cons, <- app_assoc. reflexivity.
    + intros dc Hdc. destruct (Hdcs' dc Hdc) as [Hin|(d' & Hd' & Hpw & ->)].
      * destruct Hdcs1 as [->|[Hpw ->]]; [by left|].
        apply elem_of_app in Hin as [Hin|Hin%list_elem_of_singleton];
          [by left|].
        right. exists d. split; [left|done].
      * right. exists d'. split; [by right|done].
    + intros d' Hd' Hpw. apply elem_of_cons in Hd' as [->|Hd'].
      * apply Hmono'. destruct (Hiss1 Hpw) as [_ Hi].
        rewrite assign_password_id in Hi. eauto.
      * by apply Hiss'.
    + intros k Hk. by apply Hmono', Hmono1.
Qed.

End Docks.

(** C6 (as the code has it): for a live dock with a password whose
    coordinator could be built, an [Exception] raised by the dock's
    [update] or by its first refresh is caught and logged, the dock gets
    no coordinator and nothing else changes; for a live dock without
    password the ["dock_password"] issue is filed and no coordinator is
    built; and when coordinators can be built and issues filed, the loop
    visits every dock and returns, with coordinators only for docks that
    have a password and an issue for every dock that has none. *)
Theorem dock_failures_are_isolated (env : Env) (w : World Hass)
    (config_docks : list (gmap string string)) :
  data_docks (data (entry (state w))) = Some config_docks →
  (∀ dock dcs,
     let dock' := assign_password config_docks dock in
     let id := Dock.id dock' in
     let run := setup_dock env dock dcs w in
     let issue :=
       async_create_issue (DOMAIN (const env)) ("dock_password_" +:+ id) in
     (Dock.has_password dock' = true →
      raises env (calls w) (DockCoordinator_new id) = None →
      ∀ e,
        raises env (calls w ++ [DockCoordinator_new id]) (dock_api_update id)
          = Some e
        ∨ (raises env (calls w ++ [DockCoordinator_new id]) (dock_api_update id)
             = None
           ∧ raises env (calls w ++ [DockCoordinator_new id; dock_api_update id])
                    (dock_first_refresh id) = Some e) →
        isinstance e "Exception" = true →
        fst run = Returned (dock', dcs)
        ∧ logs (snd run) = logs w ++ [dock_error dock' e]
        ∧ state (snd run) = state w)
     ∧ (Dock.has_password dock' = false →
        raises env (calls w) issue = None →
        fst run = Returned (dock', dcs)
        ∧ issues (state (snd run))
            !! (DOMAIN (const env), "dock_password_" +:+ id)
          = Some (dock_password_issue dock')
        ∧ calls (snd run) = calls w ++ [issue]))
  ∧ (only_exceptions env →
     (∀ hist id, raises env hist (DockCoordinator_new id) = None) →
     (∀ hist d i, raises env hist (async_create_issue d i) = None) →
     ∀ docks seen dcs,
       let run := setup_docks env docks seen dcs w in
       ∃ dcs',
         fst run = Returned (seen ++ (assign_password config_docks <$> docks), dcs')
         ∧ (∀ dc, dc ∈ dcs' →
              dc ∈ dcs
              ∨ ∃ d, d ∈ docks
                     ∧ Dock.has_password (assign_password config_docks d) = true
                     ∧ dc = new_dock_coordinator env (assign_password config_docks d))
         ∧ (∀ d, d ∈ docks →
              Dock.has_password (assign_password config_docks d) = false →
              is_Some (issues (state (snd run))
                         !! (DOMAIN (const env), "dock_password_" +:+ Dock.id d)))).
Proof.
  intros Hdocks. split.
  - intros dock dcs. cbv zeta.
    rewrite (setup_dock_run env w dock dcs config_docks Hdocks). cbv zeta.
    split; intros Hpw; rewrite Hpw.
    + intros Hnew e Hfail He. rewrite Hnew.
      destruct Hfail as [Hu|[Hu Hr]]; rewrite Hu; [|rewrite Hr]; rewrite He;
        cbn [fst snd logs state]; done.
    + intros Hissue. rewrite Hissue. cbn [fst snd calls state set_issues issues].
      split; [done|]. split; [apply lookup_insert_eq | done].
  - intros Hexc Hnew Hissue docks seen dcs. cbv zeta.
    destruct (setup_docks_returns env Hexc Hnew Hissue w docks seen dcs
                config_docks Hdocks) as (dcs' & w' & Hrun & Hdcs & Hiss & _).
    exists dcs'. rewrite Hrun. cbn [fst snd]. done.
Qed.

Lemma dock_failures_are_isolated_witness :
  data_docks (data (entry (state reconciled_world))) = Some reconciled_docks
  ∧ Dock.has_password
      (assign_password reconciled_docks (example_dock "2" "Dock Two")) = true
  ∧ raises silent_dock_env [DockCoordinator_new "2"] (dock_api_update "2")
    = Some (ConnectionError "dock unreachable")
  ∧ fst (setup_dock silent_dock_env (example_dock "2" "Dock Two") []
           reconciled_world)
    = Returned (assign_password reconciled_docks (example_dock "2" "Dock Two"), []).
Proof.
  split; [reflexivity|]. split; [reflexivity|]. split; [reflexivity|].
  pose proof (dock_failures_are_isolated silent_dock_env reconciled_world
                reconciled_docks eq_refl) as [H _].
  destruct (H (example_dock "2" "Dock Two") []) as [Hpw _].
  exact (proj1 (Hpw eq_refl eq_refl (ConnectionError "dock unreachable")
                  (or_introl eq_refl) eq_refl)).
Defined.

(** With dock 2 silent, setup still returns: no dock coordinator, one
    error in the log, the advisory issue of dock 3 filed. *)
Lemma setup_continues_example :
  let w' := snd (async_setup_entry silent_dock_env two_dock_world) in
  fst (async_setup_entry silent_dock_env two_dock_world) = Returned true
  ∧ (dock_coordinators <$> runtime_data (entry (state w'))) = Some []
  ∧ logs w'
    = [dock_error (Dock.set_password (Some "secret2") (example_dock "2" "Dock Two"))
                  (ConnectionError "dock unreachable");
       {| log_level := "debug";
          log_format := "Empty dock password %s (%s) for remote %s";
          log_args := ["Dock Three"; "3"; "Remote Two"] |}]
  ∧ translation_key <$> issues (state w') !! ("unfoldedcircle", "dock_password_3")
    = Some "dock_password".
Proof.
  cbv zeta. split; [by_evaluation|]. split; [by_evaluation|].
  split; by_evaluation.
Qed.

(** C6 as stated fails: an exception raised while the coordinator of a
    dock with a password is built is not caught, and setup ends with
    it. *)
Lemma dock_coordinator_constructor_counterexample :
  Dock.has_password
    (assign_password reconciled_docks (example_dock "2" "Dock Two")) = true
  ∧ isinstance (ValueError "dock") "Exception" = true
  ∧ fst (setup_dock broken_dock_env (example_dock "2" "Dock Two") []
           reconciled_world)
    = Raised (ValueError "dock")
  ∧ fst (async_setup_entry broken_dock_env two_dock_world)
    = Raised (ValueError "dock").
Proof.
  split; [by_evaluation|]. split; [by_evaluation|].
  split; by_evaluation.
Qed.

(** An exception outside [Exception], such as a cancellation, is not
    caught by [except Exception] and leaves the removal. *)
Lemma cancellation_leaves_removal :
  isinstance CancelledError "Exception" = false
  ∧ fst (async_remove_entry cancelling_env loaded_world) = Raised CancelledError.
Proof. split; by_evaluation. Qed.

(** ** The update platform after setup *)

(** C10 (the code departs from the claim): setup never writes
    [hass.data]; so after a successful setup of an entry on a host whose
    [hass.data] has no [DOMAIN] key, the coordinator sits in
    [entry.runtime_data], and the lookup
    [hass.data[DOMAIN][entry_id][UNFOLDED_CIRCLE_COORDINATOR]] of the
    update platform raises [KeyError]. *)
Theorem update_platform_lookup_fails (env : Env) (w : World Hass) :
  hass_data (state w) !! DOMAIN (const env) = None →
  fst (async_setup_entry env w) = Returned true →
  let w' := snd (async_setup_entry env w) in
  (∃ rd, runtime_data (entry (state w')) = Some rd)
  ∧ hass_data (state w') = hass_data (state w)
  ∧ fst (Update.async_setup_entry env w') = Raised (KeyError (DOMAIN (const env))).
Proof.
  intros Hdata Hok. cbv zeta.
  pose proof (setup_keeps_hass_data env w) as Hkeep.
  split; [|split; [exact Hkeep|]].
  - destruct (setup_returns_runtime_data env w true Hok) as (_ & rd & Hrd & _).
    by exists rd.
  - unfold Update.async_setup_entry, bind, get. cbn [fst snd state].
    rewrite Hkeep, Hdata. reflexivity.
Qed.

Lemma update_platform_lookup_fails_witness :
  hass_data (state two_dock_world) !! DOMAIN (const working_env) = None
  ∧ fst (async_setup_entry working_env two_dock_world) = Returned true
  ∧ fst (Update.async_setup_entry working_env
           (snd (async_setup_entry working_env two_dock_world)))
    = Raised (KeyError "unfoldedcircle").
Proof.
  assert (fst (async_setup_entry working_env two_dock_world) = Returned true)
    as Hok by by_evaluation.
  split; [reflexivity|]. split; [exact Hok|].
  exact (proj2 (proj2 (update_platform_lookup_fails working_env two_dock_world
                         eq_refl Hok))).
Defined.

(** The number platform, which reads [entry.runtime_data], finds its
    coordinator after the same setup. *)
Lemma number_platform_finds_coordinator :
  length <$> (fst <$> match fst (number_async_setup_entry working_env loaded_world) with
                      | Returned entities => Some entities
                      | Raised _ => None
                      end)
  = Some 6%nat.
Proof. by_evaluation. Qed.

(** * Further properties *)

(** ** The dock list after reconciliation *)

Section ReconciledList.
Implicit Types (c : gmap string string) (P R : list (gmap string string)).
Implicit Types (L : list Dock.t) (d : Dock.t).

Lemma id_is_live_iff L c :
  id_is_live L c = true ↔ ∃ d, d ∈ L ∧ c !! "id" = Some (Dock.id d).
Proof.
  unfold id_is_live, live_ids. destruct (c !! "id") as [i|].
  - rewrite bool_decide_eq_true, list_elem_of_fmap. split.
    + intros (d & -> & Hd). eauto.
    + intros (d & Hd & [= ->]). eauto.
  - split; [discriminate | by intros (d & _ & ?)].
Qed.

Lemma find_password_app d P R :
  find_password d (P ++ R) =
    match find_password d P with
    | Some p => Some p
    | None => find_password d R
    end.
Proof.
  induction P as [|c P IH]; [reflexivity|]. cbn [app find_password].
  case_bool_decide; [reflexivity | exact IH].
Qed.

Lemma find_password_none d P :
  find_password d P = None ↔ Dock.id d ∉ persisted_ids P.
Proof.
  unfold persisted_ids. induction P as [|c P IH]; cbn [find_password omap list_omap].
  - split; [intros _; apply not_elem_of_nil | done].
  - destruct (c !! "id") as [i|] eqn:Hi.
    + case_bool_decide as Hc.
      * injection Hc as ->. split; [discriminate|]. intros H. destruct H. left.
      * rewrite IH, not_elem_of_cons. split; [|tauto].
        intros H. split; [congruence | done].
    + rewrite bool_decide_eq_false_2 by discriminate. exact IH.
Qed.

Lemma find_password_kept L d P :
  d ∈ L → find_password d (kept_records L P) = find_password d P.
Proof.
  intros Hd. unfold kept_records.
  induction P as [|c P IH]; [reflexivity|]. cbn [List.filter find_password].
  destruct (id_is_live L c) eqn:Hlive.
  - cbn [find_password]. case_bool_decide; [reflexivity | exact IH].
  - rewrite bool_decide_eq_false_2; [exact IH|].
    intros Hc. apply not_true_iff_false in Hlive. apply Hlive.
    apply id_is_live_iff. eauto.
Qed.

Lemma new_dock_record_lookup d :
  new_dock_record d !! "id" = Some (Dock.id d)
  ∧ new_dock_record d !! "name" = Some (Dock.name d)
  ∧ new_dock_record d !! "password" = Some "".
Proof.
  unfold new_dock_record. split; [|split].
  - apply lookup_insert_eq.
  - rewrite lookup_insert_ne by done. apply lookup_insert_eq.
  - rewrite !lookup_insert_ne by done. apply lookup_insert_eq.
Qed.

Lemma find_password_new d (F : list Dock.t) :
  Dock.id d ∈ live_ids F →
  find_password d (new_dock_record <$> F) = Some (Some "").
Proof.
  unfold live_ids. induction F as [|d' F IH]; [by rewrite elem_of_nil|].
  rewrite fmap_cons, elem_of_cons. intros H. cbn [fmap list_fmap find_password].
  destruct (new_dock_record_lookup d') as (Hid & _ & Hpw). rewrite Hid, Hpw.
  case_bool_decide as Hc; [reflexivity|].
  apply IH. destruct H as [Heq|H]; [congruence | exact H].
Qed.

End ReconciledList.

(** X1: after the reconciliation the stored records and the live docks
    carry the same ids: every stored record has the id of a live dock,
    and every live dock has a stored record. *)
Theorem reconciled_ids_are_the_live_ids
    (P : list (gmap string string)) (L : list Dock.t) :
  ∃ (R : list (gmap string string)) (changed : bool),
    reconcile_docks L P = Some (R, changed)
    ∧ (∀ c, c ∈ R → ∃ d, d ∈ L ∧ c !! "id" = Some (Dock.id d))
    ∧ (∀ d, d ∈ L → ∃ c, c ∈ R ∧ c !! "id" = Some (Dock.id d)).
Proof.
  eexists _, _. split; [apply reconcile_docks_spec|]. split.
  - intros c Hc. apply id_is_live_iff.
    apply elem_of_app in Hc as [Hc|Hc].
    + pose proof (kept_records_live L P) as H. rewrite Forall_forall in H.
      by apply H.
    + pose proof (new_records_live (persisted_ids P) L) as H.
      rewrite Forall_forall in H. by apply H.
  - intros d Hd.
    destruct (first_per_id_covers (persisted_ids P) L d Hd) as [Hin|Hin].
    + apply (persisted_ids_kept L P d Hd) in Hin.
      apply list_elem_of_omap in Hin as (c & Hc & Hid).
      exists c. split; [apply elem_of_app; by left | exact Hid].
    + apply list_elem_of_fmap in Hin as (d' & Hid & Hd').
      exists (new_dock_record d'). split.
      * apply elem_of_app. right. by apply list_elem_of_fmap_2.
      * destruct (new_dock_record_lookup d') as [-> _]. by rewrite Hid.
Qed.

(** X2: after the reconciliation the password lookup of the dock loop
    finds a record for every live dock: the password stored before for
    a dock whose id was persisted, the empty password for a dock seen
    for the first time, which therefore has no password. *)
Theorem password_found_after_reconciliation
    (P : list (gmap string string)) (L : list Dock.t) (d : Dock.t) :
  d ∈ L →
  ∃ (R : list (gmap string string)) (changed : bool),
    reconcile_docks L P = Some (R, changed)
    ∧ find_password d R =
        (if bool_decide (Dock.id d ∈ persisted_ids P)
         then find_password d P
         else Some (Some ""))
    ∧ (Dock.id d ∉ persisted_ids P →
       Dock.has_password (assign_password R d) = false).
Proof.
  intros Hd. eexists _, _. split; [apply reconcile_docks_spec|].
  assert (find_password d
            (kept_records L P
               ++ (new_dock_record <$> first_per_id (persisted_ids P) L))
          = if bool_decide (Dock.id d ∈ persisted_ids P)
            then find_password d P else Some (Some "")) as Hfind.
  { rewrite find_password_app, (find_password_kept L d P Hd).
    case_bool_decide as Hin.
    - destruct (find_password d P) eqn:Hf; [reflexivity|].
      by apply find_password_none in Hf.
    - apply find_password_none in Hin as Hnone. rewrite Hnone.
      apply find_password_new.
      by destruct (first_per_id_covers (persisted_ids P) L d Hd). }
  split; [exact Hfind|].
  intros Hnew. unfold assign_password. rewrite Hfind.
  by rewrite bool_decide_eq_false_2.
Qed.

Lemma password_found_after_reconciliation_witness :
  example_dock "3" "Dock Three" ∈ scenario_live
  ∧ ∃ (R : list (gmap string string)) (changed : bool),
      reconcile_docks scenario_live scenario_persisted = Some (R, changed)
      ∧ find_password (example_dock "3" "Dock Three") R = Some (Some "").
Proof.
  assert (example_dock "3" "Dock Three" ∈ scenario_live) as Hin
    by (right; left).
  split; [exact Hin|].
  destruct (password_found_after_reconciliation scenario_persisted scenario_live
              (example_dock "3" "Dock Three") Hin)
    as (R & changed & Hrun & Hfind & _).
  exists R, changed. split; [exact Hrun|]. rewrite Hfind.
  by_evaluation.
Defined.

(** ** What setup leaves alone *)

Section SetupFrame.
Variable env : Env.

(** The guarded construction of the client reads the entry and calls
    out; it changes nothing on the host. *)
Lemma connect_keeps_state : keeps (fun h : Hass => h) (connect env).
Proof. unfold connect, new_remote. repeat keeps_step. Qed.

Lemma new_remote_keeps_state : keeps (fun h : Hass => h) (new_remote env).
Proof. unfold new_remote. repeat keeps_step. Qed.

Lemma setup_docks_keeps {B} (f : Hass → B) docks seen dcs :
  (∀ g h, f (set_issues g h) = f h) →
  keeps f (setup_docks env docks seen dcs).
Proof.
  intros Hf. revert seen dcs. induction docks as [|d rest IH]; intros seen dcs; simpl.
  - apply keeps_ret.
  - apply keeps_bind; [|intros [d' dcs']; apply IH].
    unfold setup_dock.
    repeat first [ apply keeps_modify; intros ?; apply Hf | keeps_step ].
Qed.

Lemma finish_setup_keeps {B} (f : Hass → B) remote_api :
  (∀ g h, f (set_issues g h) = f h) →
  keeps f (finish_setup env remote_api).
Proof.
  intros Hf. unfold finish_setup.
  repeat first [ apply keeps_modify; intros ?; apply Hf | keeps_step ].
Qed.

(** X3: whatever its outcome, setup never changes the identity or the
    credentials of the config entry: entry id, title, host, pin and API
    key are after setup what they were before. *)
Theorem setup_keeps_credentials (w : World Hass) :
  let e := entry (state w) in
  let e' := entry (state (snd (async_setup_entry env w))) in
  entry_id e' = entry_id e
  ∧ title e' = title e
  ∧ data_host (data e') = data_host (data e)
  ∧ data_pin (data e') = data_pin (data e)
  ∧ data_apiKey (data e') = data_apiKey (data e).
Proof.
  cbv zeta.
  assert (keeps (fun h => (entry_id (entry h), title (entry h),
                           data_host (data (entry h)), data_pin (data (entry h)),
                           data_apiKey (data (entry h))))
                (async_setup_entry env)) as Hk.
  { unfold async_setup_entry, connect, new_remote, wire_runtime_data,
      finish_setup, migrate_version_1, synchronize_docks, async_migrate_entries,
      _migrate_device_identifiers, _update_config_entry.
    repeat first [ apply setup_docks_keeps; intros ? ?; reflexivity
                 | keeps_step
                 | progress unfold migrate_device ]. }
  specialize (Hk w). cbv beta in Hk. by injection Hk as -> -> -> -> ->.
Qed.

(** With a version other than 1 the migration block is skipped. *)
Lemma migrate_version_1_skipped remote_api (w : World Hass) :
  version (entry (state w)) ≠ 1 →
  migrate_version_1 env remote_api w = (Returned tt, w).
Proof.
  intros Hv. unfold migrate_version_1, bind, get.
  by destruct (Z.eqb_spec (version (entry (state w))) 1).
Qed.

Lemma extcall_state {S} c (w : World S) :
  state (snd (extcall env c w)) = state w.
Proof. unfold extcall. by destruct (raises env (calls w) c). Qed.

Lemma synchronize_docks_keeps {B} (f : Hass → B) remote_api :
  (∀ ds h, f (set_entry (fun e => set_data (set_docks ds (data e)) e) h) = f h) →
  keeps f (synchronize_docks env remote_api).
Proof.
  intros Hf. unfold synchronize_docks.
  repeat first [ apply keeps_modify; intros ?; apply Hf | keeps_step ].
Qed.




Lemma coroutine_returned {S A} (m : M S A) (w w' : World S) (a : A) :
  coroutine m w = (Returned a, w') → m w = (Returned a, w').
Proof. unfold coroutine. destruct (m w) as [[a'|e] u]; [done | discriminate]. Qed.

Lemma extcall_returned {S} c (w w' : World S) :
  extcall env c w = (Returned tt, w') → state w' = state w.
Proof. intros H. pose proof (extcall_state c w) as Hs. by rewrite H in Hs. Qed.

Lemma migrate_version_1_returned remote_api (w w' : World Hass) :
  version (entry (state w)) = 1 →
  migrate_version_1 env remote_api w = (Returned tt, w') →
  version (entry (state w')) = 2.
Proof.
  intros Hv. unfold migrate_version_1, bind at 1, get. cbn [state].
  rewrite Hv. cbn [Z.eqb Pos.eqb]. intros H.
  do 4 (apply bind_returned in H as (? & ? & _ & H)).
  by injection H as <-.
Qed.

(** The steps of a setup that returns. *)
Lemma setup_returned_steps (w w' : World Hass) (b : bool) :
  async_setup_entry env w = (Returned b, w') →
  ∃ remote_api rd w1 w2 w3 w4 w5 docks dcs,
    connect env w = (Returned remote_api, w1)
    ∧ state w2 = state w1
    ∧ migrate_version_1 env remote_api w2 = (Returned tt, w3)
    ∧ synchronize_docks env remote_api w3 = (Returned tt, w4)
    ∧ setup_docks env (Remote.docks remote_api) [] [] w4 = (Returned (docks, dcs), w5)
    ∧ finish_setup env (remote rd)
        {| calls := calls w5; logs := logs w5;
           state := set_entry (set_runtime_data rd) (state w5) |}
      = (Returned b, w').
Proof.
  intros H. apply coroutine_returned in H.
  apply bind_returned in H as (remote_api & w1 & Hconnect & H).
  apply bind_returned in H as (rd & w6 & Hwire & Hfinish).
  unfold wire_runtime_data in Hwire.
  apply bind_returned in Hwire as ([] & w1a & Hc1 & Hwire).
  apply bind_returned in Hwire as ([] & w2 & Hc2 & Hwire).
  apply bind_returned in Hwire as ([] & w3 & Hmig & Hwire).
  apply bind_returned in Hwire as ([] & w4 & Hsync & Hwire).
  apply bind_returned in Hwire as ([docks dcs] & w5 & Hdocks & Hwire).
  apply bind_returned in Hwire as ([] & w5' & Hmod & Hret).
  injection Hret as <- <-. injection Hmod as <-.
  eexists remote_api, _, w1, w2, w3, w4, w5, docks, dcs.
  split; [exact Hconnect|]. split.
  { by rewrite (extcall_returned _ _ _ Hc2), (extcall_returned _ _ _ Hc1). }
  split; [exact Hmig|]. split; [exact Hsync|]. split; [exact Hdocks|].
  exact Hfinish.
Qed.

(** X5: a setup of a version-1 entry that returns has run the whole
    migration block: the entry is at version 2 afterwards. *)
Theorem returning_setup_of_version_1_ends_at_version_2 (w : World Hass) (b : bool) :
  version (entry (state w)) = 1 →
  fst (async_setup_entry env w) = Returned b →
  version (entry (state (snd (async_setup_entry env w)))) = 2.
Proof.
  intros Hv Hret.
  destruct (async_setup_entry env w) as [out w'] eqn:Hrun. cbn [fst snd] in *.
  subst out.
  apply setup_returned_steps in Hrun
    as (r & rd & w1 & w2 & w3 & w4 & w5 & docks & dcs
        & Hconnect & H12 & Hmig & Hsync & Hdocks & Hfinish).
  pose proof (connect_keeps_state w) as H1. rewrite Hconnect in H1.
  cbn [snd] in H1.
  apply migrate_version_1_returned in Hmig; [|by rewrite H12, H1].
  pose proof (synchronize_docks_keeps (fun h => version (entry h)) r
                ltac:(reflexivity) w3) as K1.
  rewrite Hsync in K1. cbn [snd] in K1.
  pose proof (setup_docks_keeps (fun h => version (entry h)) (Remote.docks r) [] []
                ltac:(reflexivity) w4) as K2.
  rewrite Hdocks in K2. cbn [snd] in K2.
  pose proof (finish_setup_keeps (fun h => version (entry h)) (remote rd)
                ltac:(reflexivity)
                {| calls := calls w5; logs := logs w5;
                   state := set_entry (set_runtime_data rd) (state w5) |}) as K3.
  rewrite Hfinish in K3. cbn [snd state set_entry entry set_runtime_data version] in K3.
  congruence.
Qed.

Lemma connect_returned_device (w w1 : World Hass) remote_api :
  connect env w = (Returned remote_api, w1) → remote_api = device env.
Proof.
  unfold connect, try_except.
  destruct (new_remote env w) as [[r|e] u] eqn:Hnew.
  - intros [= <- <-]. unfold new_remote in Hnew.
    do 7 (apply bind_returned in Hnew as (? & ? & _ & Hnew)).
    by injection Hnew as <-.
  - cbn [select_handler].
    destruct (isinstance e "AuthenticationError"); [discriminate|].
    destruct (isinstance e "ConnectionError"); [discriminate|].
    destruct (isinstance e "Exception"); discriminate.
Qed.

Lemma reconciled_list_ids (L : list Dock.t) (P R : list (gmap string string))
    (changed : bool) :
  reconcile_docks L P = Some (R, changed) →
  (∀ c, c ∈ R → ∃ d, d ∈ L ∧ c !! "id" = Some (Dock.id d))
  ∧ (∀ d, d ∈ L → ∃ c, c ∈ R ∧ c !! "id" = Some (Dock.id d)).
Proof.
  rewrite reconcile_docks_spec. intros [= <- _]. split.
  - intros c Hc. apply id_is_live_iff.
    apply elem_of_app in Hc as [Hc|Hc].
    + pose proof (kept_records_live L P) as H. rewrite Forall_forall in H.
      by apply H.
    + pose proof (new_records_live (persisted_ids P) L) as H.
      rewrite Forall_forall in H. by apply H.
  - intros d Hd.
    destruct (first_per_id_covers (persisted_ids P) L d Hd) as [Hin|Hin].
    + apply (persisted_ids_kept L P d Hd) in Hin.
      apply list_elem_of_omap in Hin as (c & Hc & Hid).
      exists c. split; [apply elem_of_app; by left | exact Hid].
    + apply list_elem_of_fmap in Hin as (d' & Hid & Hd').
      exists (new_dock_record d'). split.
      * apply elem_of_app. right. by apply list_elem_of_fmap_2.
      * destruct (new_dock_record_lookup d') as [-> _]. by rewrite Hid.
Qed.

Lemma synchronize_docks_returned remote_api (w w' : World Hass) :
  synchronize_docks env remote_api w = (Returned tt, w') →
  ∃ P R changed,
    data_docks (data (entry (state w))) = Some P
    ∧ reconcile_docks (Remote.docks remote_api) P = Some (R, changed)
    ∧ data_docks (data (entry (state w'))) = Some R.
Proof.
  intros Hrun.
  destruct (data_docks (data (entry (state w)))) as [P|] eqn:HP.
  - destruct (synchronize_docks_stores env w remote_api P HP)
      as (R & changed & Hrec & Hstored & _).
    rewrite Hrun in Hstored. eauto 6.
  - unfold synchronize_docks, bind, get, subscript in Hrun.
    cbn [state] in Hrun. rewrite HP in Hrun. discriminate.
Qed.

(** X6: a setup that returns leaves a dock list on the entry whose ids
    are those of the docks the remote reports: every stored record has
    the id of a live dock and every live dock has a stored record (the
    dock loop and the later steps do not touch the list again). *)
Theorem returning_setup_stores_the_live_docks (w : World Hass) (b : bool) :
  fst (async_setup_entry env w) = Returned b →
  ∃ R : list (gmap string string),
    data_docks (data (entry (state (snd (async_setup_entry env w))))) = Some R
    ∧ (∀ c, c ∈ R →
         ∃ d, d ∈ Remote.docks (device env) ∧ c !! "id" = Some (Dock.id d))
    ∧ (∀ d, d ∈ Remote.docks (device env) →
         ∃ c, c ∈ R ∧ c !! "id" = Some (Dock.id d)).
Proof.
  intros Hret.
  destruct (async_setup_entry env w) as [out w'] eqn:Hrun. cbn [fst snd] in *.
  subst out.
  apply setup_returned_steps in Hrun
    as (r & rd & w1 & w2 & w3 & w4 & w5 & docks & dcs
        & Hconnect & H12 & Hmig & Hsync & Hdocks & Hfinish).
  apply connect_returned_device in Hconnect as ->.
  apply synchronize_docks_returned in Hsync as (P & R & changed & _ & Hrec & HR).
  exists R. split; [|by eapply reconciled_list_ids].
  pose proof (setup_docks_keeps (fun h => data_docks (data (entry h)))
                (Remote.docks (device env)) [] [] ltac:(reflexivity) w4) as K2.
  rewrite Hdocks in K2. cbn [snd] in K2.
  pose proof (finish_setup_keeps (fun h => data_docks (data (entry h))) (remote rd)
                ltac:(reflexivity)
                {| calls := calls w5; logs := logs w5;
                   state := set_entry (set_runtime_data rd) (state w5) |}) as K3.
  rewrite Hfinish in K3.
  cbn [snd state set_entry entry set_runtime_data data] in K3.
  congruence.
Qed.

(** X7: the reconciliation subscripts [entry.data["docks"]]: for an entry
    whose version is not 1 and whose data has no such key, setup raises
    [KeyError] as soon as the client and the coordinator are built, and
    the host state is as before. *)
Theorem setup_without_docks_key_raises_KeyError
    (w w1 : World Hass) (remote_api : Remote.t) :
  version (entry (state w)) ≠ 1 →
  data_docks (data (entry (state w))) = None →
  new_remote env w = (Returned remote_api, w1) →
  raises env (calls w1) RemoteCoordinator_new = None →
  raises env (calls w1 ++ [RemoteCoordinator_new]) api_init = None →
  fst (async_setup_entry env w) = Raised (KeyError "docks")
  ∧ state (snd (async_setup_entry env w)) = state w.
Proof.
  intros Hv Hnone Hnew Hc1 Hc2.
  pose proof (new_remote_keeps_state w) as Hs. rewrite Hnew in Hs.
  cbn [snd] in Hs.
  assert (async_setup_entry env w
          = (Raised (KeyError "docks"),
             {| calls := (calls w1 ++ [RemoteCoordinator_new]) ++ [api_init];
                logs := logs w1; state := state w1 |})) as Hrun.
  { unfold async_setup_entry, coroutine.
    rewrite (bind_run _ _ _ _ _ (connect_returns env w w1 remote_api Hnew)).
    unfold wire_runtime_data, bind at 1 2. unfold extcall at 1. rewrite Hc1.
    unfold bind at 1. unfold extcall at 1. cbn [calls]. rewrite Hc2.
    unfold bind at 1.
    rewrite migrate_version_1_skipped by (cbn [state]; by rewrite Hs).
    unfold bind at 1. unfold synchronize_docks, bind at 1, get. cbn [state].
    unfold bind at 1, subscript. rewrite Hs, Hnone. reflexivity. }
  rewrite Hrun. cbn [fst snd state]. by rewrite Hs.
Qed.

End SetupFrame.


Lemma returning_setup_of_version_1_ends_at_version_2_witness :
  version (entry (state legacy_world)) = 1
  ∧ fst (async_setup_entry legacy_env legacy_world) = Returned true
  ∧ version (entry (state (snd (async_setup_entry legacy_env legacy_world)))) = 2.
Proof.
  assert (fst (async_setup_entry legacy_env legacy_world) = Returned true)
    as Hret by by_evaluation.
  split; [reflexivity|]. split; [exact Hret|].
  exact (returning_setup_of_version_1_ends_at_version_2 legacy_env legacy_world true
           eq_refl Hret).
Defined.

Lemma returning_setup_stores_the_live_docks_witness :
  fst (async_setup_entry working_env two_dock_world) = Returned true
  ∧ ∃ R : list (gmap string string),
      data_docks (data (entry (state (snd (async_setup_entry working_env
                                            two_dock_world))))) = Some R
      ∧ (∀ d, d ∈ scenario_live → ∃ c, c ∈ R ∧ c !! "id" = Some (Dock.id d)).
Proof.
  assert (fst (async_setup_entry working_env two_dock_world) = Returned true)
    as Hret by by_evaluation.
  split; [exact Hret|].
  destruct (returning_setup_stores_the_live_docks working_env two_dock_world true Hret)
    as (R & HR & _ & Hlive).
  exists R. split; [exact HR | exact Hlive].
Defined.

Lemma setup_without_docks_key_raises_KeyError_witness :
  version (entry (state keyless_world)) ≠ 1
  ∧ data_docks (data (entry (state keyless_world))) = None
  ∧ fst (async_setup_entry working_env keyless_world) = Raised (KeyError "docks").
Proof.
  assert (version (entry (state keyless_world)) ≠ 1) as Hv by discriminate.
  split; [exact Hv|]. split; [reflexivity|].
  assert (new_remote working_env keyless_world
          = (Returned (device working_env),
             snd (new_remote working_env keyless_world))) as Hnew
    by by_evaluation.
  exact (proj1 (setup_without_docks_key_raises_KeyError working_env keyless_world _ _
                  Hv eq_refl Hnew eq_refl eq_refl)).
Defined.

(** ** Device identifiers *)

Section DeviceMigration.
Variable env : Env.
Variable remote_api : Remote.t.
Implicit Types (dev d : DeviceEntry) (w : World Hass).

Lemma migrate_device_marked dev w :
  device_is_marked dev = true →
  migrate_device env remote_api dev w = (Returned tt, w).
Proof.
  unfold migrate_device, device_is_marked, has_marker.
  destruct (identifiers dev) as [|old rest]; [discriminate|].
  destruct (old !! 1%nat) as [second|]; [|discriminate].
  intros H. by rewrite <- negb_orb, H.
Qed.

Lemma for_each_unchanged {A} (l : list A) (body : A → M Hass unit) w :
  (∀ x, x ∈ l → body x w = (Returned tt, w)) →
  for_each l body w = (Returned tt, w).
Proof.
  induction l as [|x l IH]; intros H; [reflexivity|].
  cbn [for_each]. rewrite (bind_run _ _ _ _ _ (H x ltac:(left))).
  apply IH. intros y Hy. apply H. by right.
Qed.

Lemma migrate_device_step entry_id dev l w w' :
  has_marker (Remote.model_number remote_api) = true →
  visited entry_id (dev :: l) w →
  migrate_device env remote_api dev w = (Returned tt, w') →
  visited entry_id l w'.
Proof.
  intros Hm Inv. unfold migrate_device.
  destruct (identifiers dev) as [|old rest] eqn:Hid; [discriminate|].
  destruct (old !! 1%nat) as [second|] eqn:Hsecond; [|discriminate].
  destruct (negb _ && negb _) eqn:Hc.
  - intros H.
    apply bind_returned in H as ([] & w1 & Hlog & H).
    apply bind_returned in H as ([] & w2 & Hcall & H).
    apply extcall_returned in Hcall. injection Hlog as <-.
    cbn [state] in Hcall. injection H as <-.
    intros d' Hd' Hin. cbn [state set_device_registry device_registry] in Hd'.
    rewrite Hcall in Hd'.
    apply list_elem_of_fmap in Hd' as (d & -> & Hd).
    destruct (String.eqb (device_id d) (device_id dev)) eqn:He.
    + left. unfold device_is_marked. cbn. exact Hm.
    + destruct (Inv d Hd Hin) as [|Hin']; [by left|].
      apply elem_of_cons in Hin' as [->|]; [|by right].
      by rewrite String.eqb_refl in He.
  - intros [= <-] d Hd Hin. destruct (Inv d Hd Hin) as [|Hin']; [by left|].
    apply elem_of_cons in Hin' as [->|]; [left | by right].
    unfold device_is_marked, has_marker. rewrite Hid, Hsecond.
    rewrite <- negb_orb in Hc. by apply negb_false_iff in Hc.
Qed.

Lemma migrate_devices_visited entry_id l w w' :
  has_marker (Remote.model_number remote_api) = true →
  visited entry_id l w →
  for_each l (migrate_device env remote_api) w = (Returned tt, w') →
  visited entry_id [] w'.
Proof.
  intros Hm. revert w. induction l as [|dev l IH]; intros w Inv; cbn [for_each].
  - by intros [= <-].
  - intros H. apply bind_returned in H as ([] & w1 & Hdev & H).
    eapply IH; [|exact H]. by eapply migrate_device_step.
Qed.

(** X8: with a model number that carries the marker, the migration of
    the device identifiers is idempotent: after a pass that returned,
    the first identifier of every device of the entry is marked, and a
    second pass returns without a call, a log record or a change. *)
Theorem device_migration_is_idempotent entry_id w w' :
  has_marker (Remote.model_number remote_api) = true →
  _migrate_device_identifiers env entry_id remote_api w = (Returned tt, w') →
  (∀ d, d ∈ device_registry (state w') → entry_id ∈ device_config_entries d →
        device_is_marked d = true)
  ∧ _migrate_device_identifiers env entry_id remote_api w' = (Returned tt, w').
Proof.
  intros Hm Hrun.
  assert (visited entry_id [] w') as Hall.
  { unfold _migrate_device_identifiers, bind, get in Hrun.
    eapply migrate_devices_visited; [exact Hm| |exact Hrun].
    intros d Hd Hin. right.
    apply list_elem_of_In, List.filter_In. split; [by apply list_elem_of_In|].
    by apply bool_decide_eq_true_2. }
  assert (∀ d, d ∈ device_registry (state w') →
               entry_id ∈ device_config_entries d → device_is_marked d = true)
    as Hmarked.
  { intros d Hd Hin. destruct (Hall d Hd Hin) as [|Hnil]; [done|].
    by apply elem_of_nil in Hnil. }
  split; [exact Hmarked|].
  unfold _migrate_device_identifiers, bind, get.
  apply for_each_unchanged. intros d Hd.
  apply list_elem_of_In, List.filter_In in Hd as [Hd Hin].
  apply migrate_device_marked, Hmarked; [by apply list_elem_of_In|].
  by apply bool_decide_eq_true in Hin.
Qed.

End DeviceMigration.

Lemma device_migration_is_idempotent_witness :
  has_marker (Remote.model_number (example_remote "UCR" [])) = true
  ∧ let w' := snd (_migrate_device_identifiers legacy_env "entry1"
                     (example_remote "UCR" []) legacy_world) in
    identifiers <$> device_registry (state w')
      = [[["unfoldedcircle"; "UCR"; "0001"]]]
    ∧ _migrate_device_identifiers legacy_env "entry1" (example_remote "UCR" []) w'
      = (Returned tt, w').
Proof.
  assert (has_marker (Remote.model_number (example_remote "UCR" [])) = true)
    as Hm by reflexivity.
  split; [exact Hm|]. cbv zeta. split; [by_evaluation|].
  refine (proj2 (device_migration_is_idempotent legacy_env
                   (example_remote "UCR" []) "entry1" legacy_world _ Hm _)).
  by_evaluation.
Defined.

(** ** The first dock list *)

Section FirstDocks.
Variable env : Env.
Implicit Types (w : World Hass) (L : list Dock.t).

(** The list [_update_config_entry] builds is already reconciled. *)
Lemma reconcile_fresh_records L :
  reconcile_docks L (new_dock_record <$> L) = Some (new_dock_record <$> L, false).
Proof.
  assert (Forall (fun k => id_is_live L k = true) (new_dock_record <$> L)) as Hlive.
  { apply Forall_fmap, Forall_forall. intros d Hd. by apply new_dock_record_live. }
  assert (∀ d, d ∈ L → Dock.id d ∈ persisted_ids (new_dock_record <$> L)) as Hids.
  { intros d Hd. apply list_elem_of_omap. exists (new_dock_record d).
    split; [by apply list_elem_of_fmap_2|].
    by destruct (new_dock_record_lookup d) as [-> _]. }
  rewrite reconcile_docks_spec, (kept_records_id _ _ Hlive),
    (first_per_id_nil _ _ Hids), app_nil_r.
  do 2 f_equal.
  assert (forallb (id_is_live L) (new_dock_record <$> L) = true) as ->.
  { apply forallb_forall. intros k Hk%list_elem_of_In.
    rewrite Forall_forall in Hlive. by apply Hlive. }
  assert (forallb (fun d => bool_decide
                      (Dock.id d ∈ persisted_ids (new_dock_record <$> L))) L
          = true) as ->; [|reflexivity].
  apply forallb_forall. intros d Hd%list_elem_of_In.
  by apply bool_decide_eq_true_2, Hids.
Qed.

(** X9: the dock list [_update_config_entry] writes for an entry without
    ["docks"] is already reconciled: the reconciliation that follows
    keeps it as it is and does not update the entry again, so the host
    sees one [async_update_entry] call. *)
Theorem first_dock_list_needs_no_reconciliation (remote_api : Remote.t) w :
  data_docks (data (entry (state w))) = None →
  raises env (calls w) async_update_entry = None →
  (_update_config_entry env remote_api ;; synchronize_docks env remote_api) w
  = (Returned tt,
     {| calls := calls w ++ [async_update_entry];
        logs := logs w;
        state := set_entry
          (fun e => set_data
             (set_docks (new_dock_record <$> Remote.docks remote_api) (data e)) e)
          (state w) |}).
Proof.
  intros Hnone Hcall. destruct w as [cs ls [er dr iss hd [i t v [h p a ds] rd]]].
  cbn [state calls logs entry data data_docks] in *. subst ds.
  unfold _update_config_entry, synchronize_docks, bind, get, extcall, modify,
    subscript, ret.
  cbn [state calls logs entry data data_docks set_entry set_data set_docks].
  rewrite Hcall.
  cbn [state calls logs entry data data_docks set_entry set_data set_docks].
  rewrite reconcile_fresh_records.
  cbn [state calls logs entry data data_docks set_entry set_data set_docks].
  reflexivity.
Qed.

(** A dock list of fresh records holds no password. *)
Lemma fresh_records_passwordless L (d : Dock.t) :
  d ∈ L →
  Dock.has_password (assign_password (new_dock_record <$> L) d) = false.
Proof.
  intros Hd. unfold assign_password.
  by rewrite find_password_new by (by apply list_elem_of_fmap_2).
Qed.

Lemma setup_docks_passwordless (R : list (gmap string string))
    docks seen dcs w seen' dcs' w' :
  data_docks (data (entry (state w))) = Some R →
  (∀ d, d ∈ docks → Dock.has_password (assign_password R d) = false) →
  setup_docks env docks seen dcs w = (Returned (seen', dcs'), w') →
  dcs' = dcs
  ∧ (∀ d, d ∈ docks →
       is_Some (issues (state w')
                  !! (DOMAIN (const env), "dock_password_" +:+ Dock.id d)))
  ∧ (∀ k, is_Some (issues (state w) !! k) → is_Some (issues (state w') !! k)).
Proof.
  revert seen w. induction docks as [|d rest IH]; intros seen w HR Hpw;
    cbn [setup_docks].
  - intros [= _ <- <-]. split; [done|]. split; [|done].
    intros d Hd. by apply elem_of_nil in Hd.
  - intros H. apply bind_returned in H as ([d' dcs1] & w1 & Hdock & H).
    rewrite (setup_dock_run env w d dcs R HR) in Hdock. cbv zeta in Hdock.
    rewrite (Hpw d ltac:(left)), assign_password_id in Hdock.
    destruct (raises env (calls w) _); [discriminate|].
    injection Hdock as <- <- <-.
    apply IH in H as (-> & Hiss & Hmono);
      [|exact HR | intros d1 Hd1; apply Hpw; by right].
    split; [done|]. split.
    + intros d1 [->|Hd1]%elem_of_cons; [|by apply Hiss].
      apply Hmono. cbn [state set_issues issues].
      rewrite lookup_insert_eq. eauto.
    + intros k Hk. apply Hmono. cbn [state set_issues issues].
      destruct (decide ((DOMAIN (const env), "dock_password_" +:+ Dock.id d) = k))
        as [<-|Hne].
      * rewrite lookup_insert_eq. eauto.
      * by rewrite lookup_insert_ne.
Qed.

Lemma finish_setup_keeps_issues remote_api w b w' :
  finish_setup env remote_api w = (Returned b, w') →
  ∀ k, is_Some (issues (state w) !! k) → is_Some (issues (state w') !! k).
Proof.
  unfold finish_setup. intros H.
  apply bind_returned in H as ([] & w1 & H1%extcall_returned & H).
  apply bind_returned in H as ([] & w2 & Hadvisory & H).
  apply bind_returned in H as ([] & u1 & U1%extcall_returned & H).
  apply bind_returned in H as ([] & u2 & U2%extcall_returned & H).
  apply bind_returned in H as ([] & u3 & U3%extcall_returned & H).
  apply bind_returned in H as ([] & u4 & U4%extcall_returned & H).
  injection H as _ ->.
  rewrite U4, U3, U2, U1.
  rewrite <- H1. clear - Hadvisory.
  destruct (Remote.external_entity_configuration_available remote_api);
    [|by injection Hadvisory as <-].
  apply bind_returned in Hadvisory as ([] & w3 & H3%extcall_returned & H).
  rewrite <- H3.
  destruct (negb _); [|by injection H as <-].
  apply bind_returned in H as ([] & w4 & H4%extcall_returned & H).
  injection H as <-. rewrite <- H4. intros k Hk.
  cbn [state set_issues issues].
  destruct (decide ((DOMAIN (const env), "websocket_connection") = k)) as [<-|Hne].
  - rewrite lookup_insert_eq. eauto.
  - by rewrite lookup_insert_ne.
Qed.

Lemma migrate_version_1_first_docks remote_api w w' :
  version (entry (state w)) = 1 →
  data_docks (data (entry (state w))) = None →
  migrate_version_1 env remote_api w = (Returned tt, w') →
  data_docks (data (entry (state w')))
  = Some (new_dock_record <$> Remote.docks remote_api).
Proof.
  intros Hv Hnone. unfold migrate_version_1, bind at 1, get. cbn [state].
  rewrite Hv. cbn [Z.eqb Pos.eqb]. intros H.
  apply bind_returned in H as ([] & w1 & H1 & H).
  apply bind_returned in H as ([] & w2 & H2 & H).
  apply bind_returned in H as (b & w3 & H3 & H).
  apply bind_returned in H as ([] & w4 & H4%extcall_returned & H).
  injection H as <-. cbn [state set_entry entry set_version data]. rewrite H4.
  assert (keeps (fun h => data_docks (data (entry h)))
            (async_migrate_entries env (entry_id (entry (state w)))
               (async_migrate_entity_entry (Remote.model_number remote_api)
                  (Remote.serial_number remote_api)))) as K1.
  { unfold async_migrate_entries. repeat keeps_step. }
  assert (keeps (fun h => data_docks (data (entry h)))
            (_migrate_device_identifiers env (entry_id (entry (state w)))
               remote_api)) as K2.
  { unfold _migrate_device_identifiers.
    repeat first [keeps_step | progress unfold migrate_device]. }
  specialize (K1 w). rewrite H1 in K1. specialize (K2 w1). rewrite H2 in K2.
  cbn [snd] in K1, K2.
  unfold _update_config_entry, bind at 1, get in H3.
  rewrite K2, K1, Hnone in H3.
  apply bind_returned in H3 as ([] & w5 & H5%extcall_returned & H3).
  apply bind_returned in H3 as ([] & w6 & H6 & H3).
  injection H3 as _ <-. injection H6 as <-.
  reflexivity.
Qed.

(** The steps of a setup that returns, with the runtime data it
    stores. *)
Lemma setup_returned_runtime_data w w' (b : bool) :
  async_setup_entry env w = (Returned b, w') →
  ∃ remote_api rd w1 w2 w3 w4 w5 docks dcs,
    connect env w = (Returned remote_api, w1)
    ∧ state w2 = state w1
    ∧ migrate_version_1 env remote_api w2 = (Returned tt, w3)
    ∧ synchronize_docks env remote_api w3 = (Returned tt, w4)
    ∧ setup_docks env (Remote.docks remote_api) [] [] w4 = (Returned (docks, dcs), w5)
    ∧ dock_coordinators rd = dcs
    ∧ remote rd = Remote.set_docks docks remote_api
    ∧ finish_setup env (remote rd)
        {| calls := calls w5; logs := logs w5;
           state := set_entry (set_runtime_data rd) (state w5) |}
      = (Returned b, w').
Proof.
  intros H. apply coroutine_returned in H.
  apply bind_returned in H as (remote_api & w1 & Hconnect & H).
  apply bind_returned in H as (rd & w6 & Hwire & Hfinish).
  unfold wire_runtime_data in Hwire.
  apply bind_returned in Hwire as ([] & w1a & Hc1 & Hwire).
  apply bind_returned in Hwire as ([] & w2 & Hc2 & Hwire).
  apply bind_returned in Hwire as ([] & w3 & Hmig & Hwire).
  apply bind_returned in Hwire as ([] & w4 & Hsync & Hwire).
  apply bind_returned in Hwire as ([docks dcs] & w5 & Hdocks & Hwire).
  apply bind_returned in Hwire as ([] & w5' & Hmod & Hret).
  injection Hret as <- <-. injection Hmod as <-.
  lazymatch type of Hfinish with
  | finish_setup _ (remote ?rd) _ = _ =>
      exists remote_api, rd, w1, w2, w3, w4, w5, docks, dcs
  end.
  split; [exact Hconnect|]. split.
  { by rewrite (extcall_returned _ _ _ _ Hc2), (extcall_returned _ _ _ _ Hc1). }
  split; [exact Hmig|]. split; [exact Hsync|]. split; [exact Hdocks|].
  split; [reflexivity|]. split; [reflexivity|].
  exact Hfinish.
Qed.

(** X10: a returning setup of a version-1 entry without ["docks"] stores
    one record with an empty password per live dock, builds no dock
    coordinator, and files a ["dock_password"] issue for every live
    dock. *)
Theorem first_setup_builds_no_dock_coordinator w (b : bool) :
  version (entry (state w)) = 1 →
  data_docks (data (entry (state w))) = None →
  fst (async_setup_entry env w) = Returned b →
  let w' := snd (async_setup_entry env w) in
  data_docks (data (entry (state w')))
    = Some (new_dock_record <$> Remote.docks (device env))
  ∧ (∃ rd, runtime_data (entry (state w')) = Some rd ∧ dock_coordinators rd = [])
  ∧ (∀ d, d ∈ Remote.docks (device env) →
       is_Some (issues (state w')
                  !! (DOMAIN (const env), "dock_password_" +:+ Dock.id d))).
Proof.
  intros Hv Hnone Hret. cbv zeta.
  destruct (async_setup_entry env w) as [out w'] eqn:Hrun. cbn [fst snd] in *.
  subst out.
  apply setup_returned_runtime_data in Hrun
    as (r & rd & w1 & w2 & w3 & w4 & w5 & docks & dcs
        & Hconnect & H12 & Hmig & Hsync & Hdocks & Hdcs & _ & Hfinish).
  pose proof (connect_keeps_state env w) as H1. rewrite Hconnect in H1.
  cbn [snd] in H1.
  apply connect_returned_device in Hconnect as ->.
  apply migrate_version_1_first_docks in Hmig;
    [|by rewrite H12, H1 | by rewrite H12, H1].
  assert (data_docks (data (entry (state w4)))
          = Some (new_dock_record <$> Remote.docks (device env))) as H4.
  { apply synchronize_docks_returned in Hsync as (P & R & changed & HP & Hrec & HR).
    rewrite Hmig in HP. injection HP as <-.
    rewrite reconcile_fresh_records in Hrec. by injection Hrec as <- _. }
  pose proof (setup_docks_keeps env (fun h => data_docks (data (entry h)))
                (Remote.docks (device env)) [] [] ltac:(reflexivity) w4) as K2.
  rewrite Hdocks in K2. cbn [snd] in K2.
  apply (setup_docks_passwordless _ _ _ _ _ _ _ _ H4) in Hdocks
    as (-> & Hiss & _); [|intros d Hd; by apply fresh_records_passwordless].
  pose proof (finish_setup_keeps env (fun h => data_docks (data (entry h)))
                (remote rd) ltac:(reflexivity)
                {| calls := calls w5; logs := logs w5;
                   state := set_entry (set_runtime_data rd) (state w5) |}) as K3.
  pose proof (finish_setup_keeps_runtime_data env (remote rd)
                {| calls := calls w5; logs := logs w5;
                   state := set_entry (set_runtime_data rd) (state w5) |}) as K4.
  rewrite Hfinish in K3, K4.
  cbn [snd state set_entry entry set_runtime_data data runtime_data] in K3, K4.
  split; [congruence|]. split; [by exists rd|].
  intros d Hd. eapply finish_setup_keeps_issues; [exact Hfinish|].
  cbn [state set_entry issues]. by apply Hiss.
Qed.

End FirstDocks.

Lemma first_dock_list_needs_no_reconciliation_witness :
  data_docks (data (entry (state legacy_world))) = None
  ∧ calls (snd ((_update_config_entry working_env (device working_env) ;;
                 synchronize_docks working_env (device working_env)) legacy_world))
    = [async_update_entry].
Proof.
  split; [reflexivity|].
  by rewrite (first_dock_list_needs_no_reconciliation working_env
                (device working_env) legacy_world eq_refl eq_refl).
Defined.

Lemma first_setup_builds_no_dock_coordinator_witness :
  version (entry (state legacy_world)) = 1
  ∧ data_docks (data (entry (state legacy_world))) = None
  ∧ fst (async_setup_entry working_env legacy_world) = Returned true
  ∧ ∃ rd,
      runtime_data (entry (state (snd (async_setup_entry working_env legacy_world))))
        = Some rd
      ∧ dock_coordinators rd = [].
Proof.
  assert (fst (async_setup_entry working_env legacy_world) = Returned true)
    as Hret by by_evaluation.
  split; [reflexivity|]. split; [reflexivity|]. split; [exact Hret|].
  exact (proj1 (proj2 (first_setup_builds_no_dock_coordinator working_env
                         legacy_world true eq_refl eq_refl Hret))).
Defined.

(** ** The number platform *)

(** X11: the number platform reads [entry.runtime_data]: without it the
    set-up raises [AttributeError]; with it the set-up returns, changes
    nothing, and hands over six entities on the remote's coordinator and
    two entities for each dock coordinator, and no entity of any other
    coordinator. *)
Theorem number_platform_entities (env : Env) (w : World Hass) :
  match runtime_data (entry (state w)) with
  | None =>
      number_async_setup_entry env w = (Raised (AttributeError "runtime_data"), w)
  | Some rd =>
      ∃ remotes docks,
        number_async_setup_entry env w = (Returned (remotes, docks), w)
        ∧ length remotes = 6%nat
        ∧ length docks = (2 * length (dock_coordinators rd))%nat
        ∧ (∀ r, r ∈ remotes → UCRemoteNumber.coordinator r = coordinator rd)
        ∧ (∀ d, d ∈ docks → UCDockNumber.coordinator d ∈ dock_coordinators rd)
        ∧ (∀ dc, dc ∈ dock_coordinators rd →
             ∀ desc, desc ∈ UNFOLDED_CIRCLE_DOCK_NUMBER →
               UCDockNumber.__init__ dc desc ∈ docks)
  end.
Proof.
  unfold number_async_setup_entry, get_runtime_data, bind, get.
  destruct (runtime_data (entry (state w))) as [rd|]; [|reflexivity].
  eexists _, _. split; [reflexivity|]. split; [reflexivity|]. split; [|split; [|split]].
  - induction (dock_coordinators rd) as [|dc l IH]; [reflexivity|].
    cbn [mbind list_bind]. rewrite length_app, IH. cbn. lia.
  - intros r Hr. apply list_elem_of_fmap in Hr as (desc & -> & _). reflexivity.
  - intros d Hd. apply list_elem_of_bind in Hd as (dc & Hd & Hdc).
    apply list_elem_of_fmap in Hd as (desc & -> & _). exact Hdc.
  - intros dc Hdc desc Hdesc. apply list_elem_of_bind. exists dc.
    split; [by apply list_elem_of_fmap_2 | exact Hdc].
Qed.

(** X12: the number entities of one remote have pairwise distinct unique
    ids, and so have the number entities of one dock, whatever the model
    and serial numbers are. *)
Theorem number_unique_ids_are_distinct
    (coordinator : UnfoldedCircleRemoteCoordinator.t)
    (dock_coordinator : UnfoldedCircleDockCoordinator.t) :
  NoDup (UCRemoteNumber._attr_unique_id
           <$> (UCRemoteNumber.__init__ coordinator <$> UNFOLDED_CIRCLE_NUMBER))
  ∧ NoDup (UCDockNumber._attr_unique_id
             <$> (UCDockNumber.__init__ dock_coordinator
                    <$> UNFOLDED_CIRCLE_DOCK_NUMBER)).
Proof.
  assert (∀ m s, Inj (=) (=) (fun u => m +:+ "_" +:+ s +:+ "_" +:+ u)) as Hinj.
  { intros m s a b H. by do 4 apply String.app_inj in H. }
  split.
  - unfold UNFOLDED_CIRCLE_NUMBER. cbn [fmap list_fmap].
    unfold UCRemoteNumber.__init__, description.
    cbn [UCRemoteNumber._attr_unique_id unique_id_].
    apply (NoDup_fmap_2
             (fun u => Remote.model_number (UnfoldedCircleRemoteCoordinator.api coordinator)
                       +:+ "_" +:+ Remote.serial_number
                                     (UnfoldedCircleRemoteCoordinator.api coordinator)
                       +:+ "_" +:+ u)
             ["display_brightness"; "button_backlight_brightness";
              "sound_effects_volume"; "display_timeout"; "wakeup_sensitivity";
              "sleep_timeout"]).
    by apply (bool_decide_unpack _).
  - unfold UNFOLDED_CIRCLE_DOCK_NUMBER. cbn [fmap list_fmap].
    unfold UCDockNumber.__init__, description.
    cbn [UCDockNumber._attr_unique_id unique_id_].
    apply (NoDup_fmap_2
             (fun u => Dock.model_number (UnfoldedCircleDockCoordinator.api dock_coordinator)
                       +:+ "_" +:+ Dock.serial_number
                                     (UnfoldedCircleDockCoordinator.api dock_coordinator)
                       +:+ "_" +:+ u)
             ["display_brightness"; "button_backlight_brightness"]).
    by apply (bool_decide_unpack _).
Qed.




(** ** The firmware entity *)

(** X14: [async_install] does nothing while the device reports an
    installation in progress; otherwise it calls [update_remote], and
    only when that call has returned sets the progress indicator to the
    string ["0"] and writes the state: a failed call leaves the entity
    as it was and writes nothing. *)
Theorem install_outcomes (env : Env) (w : World Update.t) :
  (Remote.update_in_progress (Update.api (state w)) = true →
   Update.async_install env w = (Returned tt, w))
  ∧ (Remote.update_in_progress (Update.api (state w)) = false →
     ∀ e, raises env (calls w) update_remote = Some e →
       let w' := snd (Update.async_install env w) in
       (∃ e', fst (Update.async_install env w) = Raised e')
       ∧ state w' = state w
       ∧ calls w' = calls w ++ [update_remote])
  ∧ (Remote.update_in_progress (Update.api (state w)) = false →
     raises env (calls w) update_remote = None →
     let w' := snd (Update.async_install env w) in
     state w' = Update.set_in_progress (InProgressStr "0") (state w)
     ∧ calls w' = calls w ++ [update_remote; async_write_ha_state]).
Proof.
  unfold Update.async_install, bind, get, extcall, modify.
  split; [|split]; intros Hp; rewrite Hp; [reflexivity| |].
  - intros e He. rewrite He. cbn. eauto.
  - intros He. rewrite He. cbn [calls logs state].
    destruct (raises env _ async_write_ha_state); cbn [snd calls state];
      by rewrite <- app_assoc.
Qed.

Lemma install_outcomes_witness :
  Remote.update_in_progress (Update.api (state installing_world)) = true
  ∧ Update.async_install quiet_env installing_world
    = (Returned tt, installing_world).
Proof.
  split; [reflexivity|].
  exact (proj1 (install_outcomes quiet_env installing_world) eq_refl).
Defined.

Lemma reconciled_ids_are_the_live_ids_witness :
  ∃ (R : list (gmap string string)) (changed : bool),
    reconcile_docks scenario_live scenario_persisted = Some (R, changed)
    ∧ ∃ c, c ∈ R ∧ c !! "id" = Some "3".
Proof.
  destruct (reconciled_ids_are_the_live_ids scenario_persisted scenario_live)
    as (R & changed & Hrun & _ & Hlive).
  exists R, changed. split; [exact Hrun|].
  apply (Hlive (example_dock "3" "Dock Three")). right. left.
Defined.

Lemma number_platform_entities_witness :
  number_async_setup_entry working_env two_dock_world
  = (Raised (AttributeError "runtime_data"), two_dock_world).
Proof. exact (number_platform_entities working_env two_dock_world). Defined.

(** ** Issues *)

Section Evolves.
Context {S : Type} (R : S → S → Prop) `{!PreOrder R}.

Lemma evolves_unchanged {A} (m : M S A) :
  keeps (fun s => s) m → evolves R m.
Proof. intros H w. by rewrite (H w). Qed.

Lemma evolves_modify (g : S → S) : (∀ s, R s (g s)) → evolves R (modify g).
Proof. intros H w. apply H. Qed.

Lemma evolves_bind {A B} (m : M S A) (k : A → M S B) :
  evolves R m → (∀ a, evolves R (k a)) → evolves R (bind m k).
Proof.
  intros Hm Hk w. unfold bind. specialize (Hm w).
  destruct (m w) as [[a|e] w1]; cbn [snd] in *; [|exact Hm].
  etrans; [exact Hm | apply Hk].
Qed.

Lemma evolves_try_except {A} (body : M S A) clauses :
  evolves R body →
  Forall (fun clause => ∀ e, evolves R (snd clause e)) clauses →
  evolves R (try_except body clauses).
Proof.
  intros Hb Hc w. unfold try_except. specialize (Hb w).
  destruct (body w) as [[a|e] w1]; cbn [snd] in *; [exact Hb|].
  assert (∀ h, select_handler clauses e = Some h → evolves R h) as Hsel.
  { clear -Hc. induction Hc as [|[cls h'] rest Hh _ IH]; simpl; [done|].
    destruct (isinstance e cls); [|exact IH]. intros h [= <-]. apply Hh. }
  destruct (select_handler clauses e) as [h|]; cbn [snd]; [|exact Hb].
  etrans; [exact Hb | by apply Hsel].
Qed.

Lemma evolves_coroutine {A} (m : M S A) : evolves R m → evolves R (coroutine m).
Proof.
  intros Hm w. unfold coroutine. specialize (Hm w).
  by destruct (m w) as [[a|e] w1].
Qed.

Lemma evolves_for_each {A} (l : list A) (body : A → M S unit) :
  (∀ x, evolves R (body x)) → evolves R (for_each l body).
Proof.
  intros H. induction l as [|x l IH]; cbn [for_each].
  - intros w. reflexivity.
  - apply evolves_bind; [apply H | intros _; exact IH].
Qed.

End Evolves.

Global Instance issues_grow_preorder : PreOrder issues_grow.
Proof.
  split; [by intros h k|]. intros h1 h2 h3 H12 H23 k Hk. by apply H23, H12.
Qed.

Lemma issues_grow_insert k v (h : Hass) :
  issues_grow h (set_issues (insert k v) h).
Proof.
  intros k' Hk'. cbn [set_issues issues].
  destruct (decide (k = k')) as [<-|Hne].
  - rewrite lookup_insert_eq. eauto.
  - by rewrite lookup_insert_ne.
Qed.

(** Decomposes an [evolves issues_grow] goal along the structure of the
    code. *)
Ltac grows_step :=
  lazymatch goal with
  | |- evolves _ (bind _ _) => apply evolves_bind; [tc_solve| |intros ?]
  | |- evolves _ (try_except _ _) =>
      apply evolves_try_except; [tc_solve| |repeat constructor; intros ?; cbn [snd]]
  | |- evolves _ (coroutine _) => apply evolves_coroutine
  | |- evolves _ (for_each _ _) => apply evolves_for_each; [tc_solve|intros ?]
  | |- evolves _ (modify (set_issues (insert _ _))) =>
      apply evolves_modify; intros ?; apply issues_grow_insert
  | |- evolves _ (modify _) => apply evolves_modify; intros ? ? ?; assumption
  | |- evolves _ (if ?c then _ else _) => destruct c
  | |- evolves _ (match ?x with _ => _ end) => destruct x
  | |- evolves _ _ =>
      apply evolves_unchanged; [tc_solve|]; solve [repeat keeps_step]
  end.

Section Issues.
Variable env : Env.

Lemma setup_docks_grows docks seen dcs :
  evolves issues_grow (setup_docks env docks seen dcs).
Proof.
  revert seen dcs. induction docks as [|d rest IH]; intros seen dcs;
    cbn [setup_docks].
  - grows_step.
  - apply evolves_bind; [tc_solve| |intros [d' dcs']; apply IH].
    unfold setup_dock. repeat grows_step.
Qed.

Lemma setup_grows : evolves issues_grow (async_setup_entry env).
Proof.
  unfold async_setup_entry, connect, new_remote, wire_runtime_data,
    finish_setup, migrate_version_1, synchronize_docks, async_migrate_entries,
    _migrate_device_identifiers, _update_config_entry.
  repeat first [ apply setup_docks_grows | grows_step
               | progress unfold migrate_device ].
Qed.

(** X15: setup files issues and never deletes one: whatever its outcome,
    every issue that was filed before setup is still filed after it. *)
Theorem setup_never_deletes_an_issue (w : World Hass) (k : string * string) :
  is_Some (issues (state w) !! k) →
  is_Some (issues (state (snd (async_setup_entry env w))) !! k).
Proof. apply setup_grows. Qed.

End Issues.

Lemma setup_never_deletes_an_issue_witness :
  is_Some (issues (state advised_world) !! ("unfoldedcircle", "websocket_connection"))
  ∧ is_Some (issues (state (snd (async_setup_entry working_env advised_world)))
               !! ("unfoldedcircle", "websocket_connection")).
Proof.
  assert (is_Some (issues (state advised_world)
                     !! ("unfoldedcircle", "websocket_connection"))) as H.
  { exists (websocket_connection_issue (example_remote "UCR2" scenario_live)).
    by_evaluation. }
  split; [exact H|].
  exact (setup_never_deletes_an_issue working_env advised_world _ H).
Defined.

Section Advisory.
Variable env : Env.

Lemma dock_issue_is_not_the_advisory (d id : string) :
  (d, "dock_password_" +:+ id) ≠ (d, "websocket_connection").
Proof. intros [= H]. Qed.

Lemma setup_docks_keeps_advisory docks seen dcs :
  keeps (fun h => issues h !! (DOMAIN (const env), "websocket_connection"))
        (setup_docks env docks seen dcs).
Proof.
  revert seen dcs. induction docks as [|d rest IH]; intros seen dcs; simpl.
  - apply keeps_ret.
  - apply keeps_bind; [|intros [d' dcs']; apply IH].
    unfold setup_dock.
    repeat first
      [ apply keeps_modify; intros ?; cbn [set_issues issues];
        apply lookup_insert_ne, dock_issue_is_not_the_advisory
      | keeps_step ].
Qed.

Lemma wire_runtime_data_keeps_advisory remote_api :
  keeps (fun h => issues h !! (DOMAIN (const env), "websocket_connection"))
        (wire_runtime_data env remote_api).
Proof.
  unfold wire_runtime_data, migrate_version_1, synchronize_docks,
    async_migrate_entries, _migrate_device_identifiers, _update_config_entry.
  repeat first [ apply setup_docks_keeps_advisory | keeps_step
               | progress unfold migrate_device ].
Qed.

Lemma wire_runtime_data_returned_remote remote_api (w w' : World Hass) rd :
  wire_runtime_data env remote_api w = (Returned rd, w') →
  ∃ docks, remote rd = Remote.set_docks docks remote_api.
Proof.
  unfold wire_runtime_data. intros H.
  do 4 (apply bind_returned in H as ([] & ? & _ & H)).
  apply bind_returned in H as ([docks dcs] & ? & _ & H).
  apply bind_returned in H as ([] & ? & _ & H).
  injection H as <- _. by exists docks.
Qed.

Lemma finish_setup_advisory remote_api (w w' : World Hass) (b : bool) :
  finish_setup env remote_api w = (Returned b, w') →
  issues (state w') =
    if Remote.external_entity_configuration_available remote_api
       && negb (truthy (registered_websocket_url env))
    then <[(DOMAIN (const env), "websocket_connection")
           := websocket_connection_issue remote_api]> (issues (state w))
    else issues (state w).
Proof.
  unfold finish_setup. intros H.
  apply bind_returned in H as ([] & w1 & H1%extcall_returned & H).
  apply bind_returned in H as ([] & w2 & Hadvisory & H).
  apply bind_returned in H as ([] & u1 & U1%extcall_returned & H).
  apply bind_returned in H as ([] & u2 & U2%extcall_returned & H).
  apply bind_returned in H as ([] & u3 & U3%extcall_returned & H).
  apply bind_returned in H as ([] & u4 & U4%extcall_returned & H).
  injection H as _ <-.
  rewrite U4, U3, U2, U1, <- H1. clear - Hadvisory.
  destruct (Remote.external_entity_configuration_available remote_api);
    cbn [andb]; [|by injection Hadvisory as <-].
  apply bind_returned in Hadvisory as ([] & w3 & H3%extcall_returned & H).
  rewrite <- H3.
  destruct (negb _); [|by injection H as <-].
  apply bind_returned in H as ([] & w4 & H4%extcall_returned & H).
  injection H as <-. by rewrite <- H4.
Qed.

(** X16: after a setup that returned, the ["websocket_connection"]
    advisory is filed exactly when the device supports the external
    entity configuration and no websocket URL is registered (none, or
    the empty string); otherwise the entry of that key is what it was
    before setup: the dock loop never touches it and setup never clears
    it. *)
Theorem websocket_advisory_after_setup (w : World Hass) (b : bool) :
  fst (async_setup_entry env w) = Returned b →
  issues (state (snd (async_setup_entry env w)))
    !! (DOMAIN (const env), "websocket_connection")
  = if Remote.external_entity_configuration_available (device env)
       && negb (truthy (registered_websocket_url env))
    then Some (websocket_connection_issue (device env))
    else issues (state w) !! (DOMAIN (const env), "websocket_connection").
Proof.
  intros Hret.
  destruct (async_setup_entry env w) as [out w'] eqn:Hrun. cbn [fst snd] in *.
  subst out. unfold async_setup_entry in Hrun.
  apply coroutine_returned in Hrun.
  apply bind_returned in Hrun as (r & w1 & Hconnect & Hrun).
  apply bind_returned in Hrun as (rd & w2 & Hwire & Hfinish).
  pose proof (connect_keeps_state env w) as K1. rewrite Hconnect in K1.
  pose proof (wire_runtime_data_keeps_advisory r w1) as K2. rewrite Hwire in K2.
  cbn [snd] in K1, K2.
  apply connect_returned_device in Hconnect as ->.
  apply wire_runtime_data_returned_remote in Hwire as [docks Hremote].
  rewrite (finish_setup_advisory _ _ _ _ Hfinish), Hremote.
  cbn [Remote.set_docks Remote.external_entity_configuration_available].
  destruct (_ && _).
  - by rewrite lookup_insert_eq.
  - by rewrite K2, K1.
Qed.

End Advisory.

Lemma websocket_advisory_after_setup_witness :
  fst (async_setup_entry working_env two_dock_world) = Returned true
  ∧ issues (state (snd (async_setup_entry working_env two_dock_world)))
      !! ("unfoldedcircle", "websocket_connection")
    = None.
Proof.
  assert (fst (async_setup_entry working_env two_dock_world) = Returned true)
    as Hret by by_evaluation.
  split; [exact Hret|].
  exact (websocket_advisory_after_setup working_env two_dock_world true Hret).
Defined.

(** ** Unload and removal: what they change *)

Section TeardownFrame.
Variable env : Env.

(** X17: removal changes nothing on the host, whatever happens; and when
    the entry has no ["host"], the [KeyError] is caught and logged
    before any client is built: no call leaves the integration. *)
Theorem removal_leaves_host_untouched (w : World Hass) :
  state (snd (async_remove_entry env w)) = state w
  ∧ (data_host (data (entry (state w))) = None →
     async_remove_entry env w
     = (Returned tt,
        {| calls := calls w;
           logs := logs w
             ++ [ {| log_level := "debug";
                     log_format := "Removing remote from Home assistant for entry %s";
                     log_args := [entry_id (entry (state w))] |};
                  remove_error (KeyError "host") ];
           state := state w |})).
Proof.
  split.
  - apply (keeps_coroutine (fun h : Hass => h)).
    unfold remove_body. repeat keeps_step.
  - intros Hnone. unfold async_remove_entry, coroutine, try_except, remove_body,
      bind, get, log, emit, subscript.
    cbn [state calls logs]. rewrite Hnone. unfold raise. cbn [select_handler].
    assert (isinstance (KeyError "host") "Exception" = true) as -> by reflexivity.
    cbn [state calls logs]. by rewrite <- app_assoc.
Qed.

(** The loop over the docks deletes their issues and nothing else. *)
Lemma delete_dock_issues_run (docks : list Dock.t) (w : World Hass) :
  (∀ hist d i, raises env hist (async_delete_issue d i) = None) →
  ∃ w', for_each docks (delete_dock_issue env) w = (Returned tt, w')
        ∧ logs w' = logs w
        ∧ ∀ k, issues (state w') !! k =
               if bool_decide (k ∈ dock_issue_key env <$> (Dock.id <$> docks))
               then None else issues (state w) !! k.
Proof.
  intros Hdel. revert w. induction docks as [|d rest IH]; intros w.
  - exists w. split; [reflexivity|]. split; [reflexivity|]. intros k.
    by rewrite bool_decide_eq_false_2 by apply not_elem_of_nil.
  - cbn [for_each]. unfold delete_dock_issue at 1, bind at 1 2, extcall, modify.
    rewrite Hdel. cbn [state calls logs].
    match goal with |- ∃ _, for_each _ _ ?u = _ ∧ _ =>
      destruct (IH u) as (w' & Hrun & Hlogs & Hiss) end.
    exists w'. split; [exact Hrun|]. split; [exact Hlogs|]. intros k.
    rewrite Hiss. cbn [state set_issues issues]. rewrite !fmap_cons.
    fold (dock_issue_key env (Dock.id d)).
    destruct (decide (k = dock_issue_key env (Dock.id d))) as [->|Hne].
    + rewrite (bool_decide_eq_true_2 (_ ∈ _ :: _)) by left.
      rewrite lookup_delete_eq. by destruct (bool_decide _).
    + rewrite lookup_delete_ne by done.
      rewrite (bool_decide_ext
                 (k ∈ dock_issue_key env (Dock.id d)
                      :: (dock_issue_key env <$> (Dock.id <$> rest)))
                 (k ∈ dock_issue_key env <$> (Dock.id <$> rest)));
        [reflexivity|].
      rewrite elem_of_cons. tauto.
Qed.

(** With a websocket that can be closed and issues that can be deleted,
    the guarded part of unload runs to its end. *)
Lemma unload_guarded_run (w : World Hass) (rd : RuntimeData) :
  runtime_data (entry (state w)) = Some rd →
  raises env (calls w) close_websocket = None →
  (∀ hist d i, raises env hist (async_delete_issue d i) = None) →
  ∃ w', unload_guarded env w = (Returned tt, w')
        ∧ logs w' = logs w
        ∧ ∀ k, issues (state w') !! k =
               if bool_decide
                    (k ∈ dock_issue_key env
                           <$> (Dock.id
                                  <$> Remote.docks
                                        (UnfoldedCircleRemoteCoordinator.api
                                           (coordinator rd))))
               then None else issues (state w) !! k.
Proof.
  intros Hrd Hclose Hdel.
  destruct (delete_dock_issues_run
              (Remote.docks (UnfoldedCircleRemoteCoordinator.api (coordinator rd)))
              {| calls := calls w ++ [close_websocket]; logs := logs w;
                 state := state w |} Hdel) as (w' & Hrun & Hlogs & Hiss).
  exists w'. split; [|done].
  unfold unload_guarded, try_except, unload_body, get_runtime_data,
    bind, get, extcall.
  cbn [state calls logs]. rewrite Hrd. unfold ret at 1. cbn [state calls logs].
  rewrite Hclose. by rewrite Hrun.
Qed.

(** X18: when the websocket can be closed and issues can be deleted, the
    guarded part of unload returns without a log record, the
    ["dock_password"] issue of every dock of the coordinator's client is
    gone, and every other issue is as it was. *)
Theorem unload_deletes_dock_issues (w : World Hass) (rd : RuntimeData) :
  runtime_data (entry (state w)) = Some rd →
  raises env (calls w) close_websocket = None →
  (∀ hist d i, raises env hist (async_delete_issue d i) = None) →
  let w' := snd (unload_guarded env w) in
  let docks := Remote.docks (UnfoldedCircleRemoteCoordinator.api (coordinator rd)) in
  fst (unload_guarded env w) = Returned tt
  ∧ logs w' = logs w
  ∧ ∀ k, issues (state w') !! k =
         if bool_decide (k ∈ dock_issue_key env <$> (Dock.id <$> docks))
         then None else issues (state w) !! k.
Proof.
  intros Hrd Hclose Hdel. cbv zeta.
  destruct (unload_guarded_run w rd Hrd Hclose Hdel) as (w' & -> & Hlogs & Hiss).
  cbn [fst snd]. done.
Qed.

(** X19: when closing the websocket raises an [Exception], the guarded
    part of unload logs it and returns at once: no issue is deleted and
    the host state is unchanged. *)
Theorem failed_close_keeps_dock_issues (w : World Hass) (rd : RuntimeData)
    (e : exn) :
  runtime_data (entry (state w)) = Some rd →
  raises env (calls w) close_websocket = Some e →
  isinstance e "Exception" = true →
  unload_guarded env w
  = (Returned tt,
     {| calls := calls w ++ [close_websocket];
        logs := logs w ++ [unload_error e];
        state := state w |}).
Proof.
  intros Hrd Hclose He.
  unfold unload_guarded, try_except, unload_body, get_runtime_data,
    bind, get, extcall.
  cbn [state calls logs]. rewrite Hrd. unfold ret at 1. cbn [state calls logs].
  rewrite Hclose. cbn [select_handler]. by rewrite He.
Qed.

Lemma setup_dock_returned_id dock dcs (w w' : World Hass) dock' dcs' :
  setup_dock env dock dcs w = (Returned (dock', dcs'), w') →
  Dock.id dock' = Dock.id dock.
Proof.
  unfold setup_dock. intros H.
  apply bind_returned in H as (h & w1 & _ & H).
  apply bind_returned in H as (R & w2 & _ & H).
  destruct (Dock.has_password _).
  - apply bind_returned in H as ([] & ? & _ & H).
    apply bind_returned in H as (? & ? & _ & H).
    injection H as <- _ _. apply assign_password_id.
  - do 3 (apply bind_returned in H as ([] & ? & _ & H)).
    injection H as <- _ _. apply assign_password_id.
Qed.

Lemma setup_docks_returned_ids docks seen dcs (w w' : World Hass) seen' dcs' :
  setup_docks env docks seen dcs w = (Returned (seen', dcs'), w') →
  Dock.id <$> seen' = (Dock.id <$> seen) ++ (Dock.id <$> docks).
Proof.
  revert seen dcs w. induction docks as [|d rest IH]; intros seen dcs w;
    cbn [setup_docks].
  - intros [= <- _ _]. by rewrite app_nil_r.
  - intros H. apply bind_returned in H as ([d' dcs1] & w1 & Hd & H).
    apply IH in H. rewrite H, fmap_app, <- app_assoc. cbn.
    by rewrite (setup_dock_returned_id _ _ _ _ _ _ Hd).
Qed.

Lemma unload_state (w : World Hass) :
  state (snd (async_unload_entry env w)) = state (snd (unload_guarded env w)).
Proof.
  unfold async_unload_entry, coroutine, bind.
  destruct (unload_guarded env w) as [[[]|e] w1]; [|reflexivity].
  unfold extcall. by destruct (raises env (calls w1) _).
Qed.

(** X20: setup then unload: after a setup that returned, an unload that
    can close the websocket and delete issues leaves no
    ["dock_password"] issue for any dock the remote reports. *)
Theorem setup_then_unload_clears_dock_issues (w : World Hass) (b : bool) :
  fst (async_setup_entry env w) = Returned b →
  let w' := snd (async_setup_entry env w) in
  raises env (calls w') close_websocket = None →
  (∀ hist d i, raises env hist (async_delete_issue d i) = None) →
  ∀ d, d ∈ Remote.docks (device env) →
       issues (state (snd (async_unload_entry env w')))
         !! dock_issue_key env (Dock.id d) = None.
Proof.
  intros Hret. cbv zeta.
  destruct (setup_returns_runtime_data env w b Hret) as (_ & rd' & Hrd' & Hapi).
  destruct (async_setup_entry env w) as [out w'] eqn:Hrun. cbn [fst snd] in *.
  subst out. intros Hclose Hdel d Hd.
  apply setup_returned_runtime_data in Hrun
    as (r & rd & w1 & w2 & w3 & w4 & w5 & docks & dcs
        & Hconnect & _ & _ & _ & Hdocks & _ & Hremote & Hfinish).
  apply connect_returned_device in Hconnect as ->.
  pose proof (finish_setup_keeps_runtime_data env (remote rd)
                {| calls := calls w5; logs := logs w5;
                   state := set_entry (set_runtime_data rd) (state w5) |}) as K.
  rewrite Hfinish in K. cbn [snd state set_entry entry set_runtime_data
                            runtime_data] in K.
  rewrite Hrd' in K. injection K as ->.
  destruct (unload_guarded_run w' rd Hrd' Hclose Hdel) as (u & Hu & _ & Hiss).
  rewrite unload_state, Hu. cbn [snd]. rewrite Hiss, Hapi, Hremote.
  cbn [Remote.set_docks Remote.docks].
  apply setup_docks_returned_ids in Hdocks. cbn [fmap list_fmap app] in Hdocks.
  rewrite Hdocks. rewrite bool_decide_eq_true_2; [reflexivity|].
  by apply list_elem_of_fmap_2, list_elem_of_fmap_2.
Qed.

End TeardownFrame.

Lemma removal_leaves_host_untouched_witness :
  state (snd (async_remove_entry unreachable_env two_dock_world))
  = state two_dock_world.
Proof. exact (proj1 (removal_leaves_host_untouched unreachable_env two_dock_world)). Defined.

Lemma unload_deletes_dock_issues_witness :
  is_Some (issues (state wired_world) !! dock_issue_key working_env "3")
  ∧ fst (unload_guarded working_env wired_world) = Returned tt
  ∧ issues (state (snd (unload_guarded working_env wired_world)))
      !! dock_issue_key working_env "3" = None.
Proof.
  split.
  { exists (dock_password_issue (example_dock "3" "Dock Three")). by_evaluation. }
  destruct (unload_deletes_dock_issues working_env wired_world
              example_runtime_data eq_refl eq_refl (fun _ _ _ => eq_refl))
    as (Hret & _ & Hiss).
  split; [exact Hret|]. rewrite Hiss. reflexivity.
Defined.

Lemma failed_close_keeps_dock_issues_witness :
  state (snd (unload_guarded unreachable_env wired_world)) = state wired_world.
Proof.
  by rewrite (failed_close_keeps_dock_issues unreachable_env wired_world
                example_runtime_data (ConnectionError "unreachable")
                eq_refl eq_refl eq_refl).
Defined.

Lemma setup_then_unload_clears_dock_issues_witness :
  fst (async_setup_entry working_env two_dock_world) = Returned true
  ∧ issues (state (snd (async_unload_entry working_env
                          (snd (async_setup_entry working_env two_dock_world)))))
      !! dock_issue_key working_env "3" = None.
Proof.
  assert (fst (async_setup_entry working_env two_dock_world) = Returned true)
    as Hret by by_evaluation.
  split; [exact Hret|].
  apply (setup_then_unload_clears_dock_issues working_env two_dock_world true
           Hret eq_refl (fun _ _ _ => eq_refl) (example_dock "3" "Dock Three")).
  right. left.
Defined.

(** ** The firmware entity: what its methods leave alone *)


